(** * py-time-tracker: the call-timing tracker of [lib/time_tracker.py]

    A shallow embedding of [TimeTracker] (its two stacks, [_enter], [_exit]
    and the [time_track] decorator) together with the properties of the
    specification that concern it.

    Python lists are kept in source order (oldest element first): [append]
    adds at the end and [pop] removes the last element.  List objects live in
    a heap indexed by address, so that two trackers which reference the same
    list object really share it. *)

From Stdlib Require Import String List ZArith Lia Bool Arith PeanoNat DecimalString.
Import ListNotations.
Open Scope string_scope.
Open Scope list_scope.

(** ** Python lists *)

(** [l.pop()]: the last element and the remaining list, [None] when the list
    is empty (Python raises IndexError there). *)
Definition pop {A : Type} (l : list A) : option (A * list A) :=
  match rev l with
  | [] => None
  | x :: r => Some (x, rev r)
  end.

(** ** Exceptions, results and the state-and-exception monad *)

(** The failures the model distinguishes: the IndexError that Python's list
    operations raise on an empty list, any other exception (raised by an
    instrumented function or by a logger), identified by its message, and
    the TypeError of a call whose arguments do not fit the parameters of the
    function (its message is left out). *)
Inductive exn : Type :=
| IndexError (msg : string)
| Exception (msg : string)
| TypeError.

(** The specification calls the failure of an exit without a matching enter
    UnbalancedStackError.  The source defines no exception class of that
    name; it stands here for an exception of its own, which no operation of
    the source raises. *)
Definition UnbalancedStackError : exn := Exception "UnbalancedStackError".

Inductive result (A : Type) : Type :=
| Return (a : A)
| Raise (e : exn).
Arguments Return {A} a.
Arguments Raise {A} e.

Definition M (S A : Type) : Type := S -> result A * S.

Definition ret {S A} (a : A) : M S A := fun w => (Return a, w).

Definition bind {S A B} (c : M S A) (k : A -> M S B) : M S B := fun w =>
  match c w with
  | (Return a, w') => k a w'
  | (Raise e, w') => (Raise e, w')
  end.

Notation "x <- c ;; k" := (bind c (fun x => k))
  (at level 100, c at next level, right associativity).
Notation "c ;;; k" := (bind c (fun _ => k))
  (at level 100, right associativity).

(** [try: body finally: fin].  [fin] runs on every exit path of [body]; when
    [fin] itself raises, that exception replaces the outcome of [body]. *)
Definition try_finally {S A} (body : M S A) (fin : M S unit) : M S A := fun w =>
  let (r, w1) := body w in
  match fin w1 with
  | (Return _, w2) => (r, w2)
  | (Raise e, w2) => (Raise e, w2)
  end.

(** ** What the tracker takes from its host *)

(** The numbers held by the stacks.  [time.time()] returns a float and the
    accumulators start at the literal [0]; the tracker only ever subtracts
    and adds them, so the arithmetic is an interface: [zero] is the literal
    [0], [sub] is [-] and [add] is [+].  [value] is the type of the opaque
    Python values passed to and returned by instrumented calls, and
    [clock n] is what the [n]-th call of [time.time()] returns. *)
Class Host : Type := {
  num : Type;
  zero : num;
  add : num -> num -> num;
  sub : num -> num -> num;
  value : Type;
  clock : nat -> num
}.

Section Model.
Context `{Host}.

(** The dictionary handed to [logger.log] (the Timing Record). *)
Record message : Type := {
  function_name : string;
  args : list value;
  kwargs : list (string * value);
  total_time : num;
  partial_time : num
}.

(** A logger object: [log lg m history] tells whether [lg.log(m)] raises,
    given the records that were logged before.  A logger holds no reference
    to the stacks. *)
Record Logger : Type := { log : message -> list message -> option exn }.

(** The state of the process. *)
Record world : Type := {
  heap : nat -> list num;       (* list objects, by address *)
  next_loc : nat;               (* first address not yet allocated *)
  clock_reads : nat;            (* number of time.time() calls so far *)
  logged : list message         (* records handed to a logger, in order *)
}.

(** *** Heap primitives *)

Definition upd (h : nat -> list num) (l : nat) (v : list num) : nat -> list num :=
  fun l' => if Nat.eqb l' l then v else h l'.

Definition set_heap (w : world) (h : nat -> list num) : world :=
  {| heap := h; next_loc := next_loc w;
     clock_reads := clock_reads w; logged := logged w |}.

(** A list display: a new list object. *)
Definition new_list (init : list num) : M world nat := fun w =>
  (Return (next_loc w),
   {| heap := upd (heap w) (next_loc w) init; next_loc := S (next_loc w);
      clock_reads := clock_reads w; logged := logged w |}).

(** [l.append(x)] *)
Definition list_append (l : nat) (x : num) : M world unit := fun w =>
  (Return tt, set_heap w (upd (heap w) l (heap w l ++ [x]))).

(** [l.pop()] *)
Definition list_pop (l : nat) : M world num := fun w =>
  match pop (heap w l) with
  | None => (Raise (IndexError "pop from empty list"), w)
  | Some (x, r) => (Return x, set_heap w (upd (heap w) l r))
  end.

(** [l[-1] += x] *)
Definition list_iadd_last (l : nat) (x : num) : M world unit := fun w =>
  match pop (heap w l) with
  | None => (Raise (IndexError "list index out of range"), w)
  | Some (y, r) => (Return tt, set_heap w (upd (heap w) l (r ++ [add y x])))
  end.

(** [time.time()] *)
Definition time_time : M world num := fun w =>
  (Return (clock (clock_reads w)),
   {| heap := heap w; next_loc := next_loc w;
      clock_reads := S (clock_reads w); logged := logged w |}).

(** [lg.log(m)] *)
Definition logger_log (lg : Logger) (m : message) : M world unit := fun w =>
  (match log lg m (logged w) with
   | None => Return tt
   | Some e => Raise e
   end,
   {| heap := heap w; next_loc := next_loc w;
      clock_reads := clock_reads w; logged := logged w ++ [m] |}).

(** *** The module-level lists (lines 4-5) *)

Definition _time_tracker_global_entering_times : nat := 0.
Definition _time_tracker_global_total_times : nat := 1.

(** The world once the module has been imported. *)
Definition module_world : world :=
  {| heap := upd (upd (fun _ => []) _time_tracker_global_entering_times [])
                 _time_tracker_global_total_times [zero];
     next_loc := 2; clock_reads := 0; logged := [] |}.

(** *** class TimeTracker *)

Record TimeTracker : Type := {
  _logger : Logger;
  _do_time_tracking : bool;
  _entering_times : nat;        (* address of the entry-timestamp list *)
  _total_times : nat            (* address of the accumulator list *)
}.

Definition __init__ (logger : Logger) (do_time_tracking isolated : bool)
  : M world TimeTracker :=
  if isolated then
    e <- new_list [] ;;
    t <- new_list [zero] ;;
    ret {| _logger := logger; _do_time_tracking := do_time_tracking;
           _entering_times := e; _total_times := t |}
  else
    ret {| _logger := logger; _do_time_tracking := do_time_tracking;
           _entering_times := _time_tracker_global_entering_times;
           _total_times := _time_tracker_global_total_times |}.

Definition _enter (self : TimeTracker) : M world unit :=
  now <- time_time ;;
  list_append (_entering_times self) now ;;;
  list_append (_total_times self) zero.

Definition _exit (self : TimeTracker) (function_name : string)
    (args : list value) (kwargs : list (string * value)) : M world unit :=
  enter_time <- list_pop (_entering_times self) ;;
  inner_total_time <- list_pop (_total_times self) ;;
  exit_time <- time_time ;;
  let total_time := sub exit_time enter_time in
  let partial_time := sub total_time inner_total_time in
  list_iadd_last (_total_times self) total_time ;;;
  logger_log (_logger self)
    {| function_name := function_name; args := args; kwargs := kwargs;
       total_time := total_time; partial_time := partial_time |}.

(** A Python function object: its [__name__] and what calling it does. *)
Record callable : Type := {
  __name__ : string;
  call : list value -> list (string * value) -> M world value
}.

(** The closure [wrapped] of lines 51-58. *)
Definition wrapped (self : TimeTracker) (function : callable)
    (args : list value) (kwargs : list (string * value)) : M world value :=
  _enter self ;;;
  result <- try_finally (call function args kwargs)
              (_exit self (__name__ function) args kwargs) ;;
  ret result.

(** [_time_track]: [functools.wraps] gives [wrapped] the name of
    [function]. *)
Definition _time_track (self : TimeTracker) (function : callable) : callable :=
  {| __name__ := __name__ function; call := wrapped self function |}.

Definition time_track (self : TimeTracker) : callable -> callable :=
  if _do_time_tracking self then _time_track self else fun function => function.

(** ** Vocabulary of the specification *)

(** The two stacks of a tracker are two list objects. *)
Definition distinct_stacks (self : TimeTracker) : Prop :=
  _entering_times self <> _total_times self.

(** [len(child_time_accumulators) == len(entry_timestamps) + 1] *)
Definition invariant (self : TimeTracker) (w : world) : Prop :=
  length (heap w (_total_times self)) = S (length (heap w (_entering_times self))).

(** [w'] differs from [w] at most in the two lists of [self]. *)
Definition frame (self : TimeTracker) (w w' : world) : Prop :=
  forall l, l <> _entering_times self -> l <> _total_times self ->
            heap w' l = heap w l.

(** The operations of the tracker, as its client issues them. *)
Inductive op : Type :=
| Enter
| Exit (function_name : string) (args : list value) (kwargs : list (string * value)).

Definition step (self : TimeTracker) (o : op) : M world unit :=
  match o with
  | Enter => _enter self
  | Exit f a k => _exit self f a k
  end.

(** A sequence of operations; an operation that raises leaves the world it
    raised in, and the client goes on. *)
Fixpoint run (self : TimeTracker) (ops : list op) (w : world) : world :=
  match ops with
  | [] => w
  | o :: rest => run self rest (snd (step self o w))
  end.

(** Properly nested sequences: every [Exit] closes the latest open
    [Enter]. *)
Inductive nested : list op -> Prop :=
| nested_nil : nested []
| nested_call f a k body rest :
    nested body -> nested rest ->
    nested (Enter :: body ++ Exit f a k :: rest).

(** The records that a step hands to the logger. *)
Definition emitted (w w' : world) : list message :=
  skipn (length (logged w)) (logged w').

(** The records emitted by the [Exit]s of [ops] that are issued when
    exactly [d] calls are open. *)
Fixpoint records_at (self : TimeTracker) (d : nat) (ops : list op) (w : world)
  : list message :=
  match ops with
  | [] => []
  | o :: rest =>
      let w' := snd (step self o w) in
      match o with
      | Exit _ _ _ =>
          if Nat.eqb (length (heap w (_entering_times self))) d
          then emitted w w' else []
      | Enter => []
      end ++ records_at self d rest w'
  end.

(** The records of the top-level calls that [ops] completes. *)
Definition top_level_records (self : TimeTracker) : list op -> world -> list message :=
  records_at self 1.

(** A logger that never raises. *)
Definition quiet (lg : Logger) : Prop := forall m h, log lg m h = None.

(** A chain of instrumented functions named [names], outermost first: each
    calls the next one, and the last one calls [inner]. *)
Fixpoint call_chain (self : TimeTracker) (names : list string) (inner : callable)
  : callable :=
  match names with
  | [] => inner
  | n :: rest =>
      time_track self
        {| __name__ := n;
           call := fun a k => call (call_chain self rest inner) a k |}
  end.

(** Every entry timestamp on the stack is an earlier reading of the clock. *)
Definition entries_from_clock (self : TimeTracker) (w : world) : Prop :=
  Forall (fun t => exists i, i < clock_reads w /\ t = clock i)
         (heap w (_entering_times self)).

(** The running sum [((r + t1) + t2) + ...] that repeated [+=] builds. *)
Definition accumulate (r : num) (l : list num) : num := fold_left add l r.

End Model.

Arguments upd : simpl never.
Arguments _enter : simpl never.
Arguments _exit : simpl never.

(** ** A host with integer clock ticks, loggers and sample functions *)

Definition ZHost (clk : nat -> Z) : Host :=
  {| num := Z; zero := 0%Z; add := Z.add; sub := Z.sub; value := Z; clock := clk |}.

(** A clock that advances by ten ticks at every reading. *)
Definition ten_ticks : Host := ZHost (fun n => (10 * Z.of_nat n)%Z).

(** *** Python's binding of arguments to parameters *)

(** The value that the keyword arguments [k] give to the parameter [p]. *)
Fixpoint keyword {V : Type} (p : string) (k : list (string * V)) : option V :=
  match k with
  | [] => None
  | (q, v) :: rest => if String.eqb p q then Some v else keyword p rest
  end.

(** The values that [k] gives to the parameters [ps], when each has one. *)
Fixpoint keywords {V : Type} (ps : list string) (k : list (string * V))
  : option (list V) :=
  match ps with
  | [] => Some []
  | p :: rest =>
      match keyword p k, keywords rest k with
      | Some v, Some vs => Some (v :: vs)
      | _, _ => None
      end
  end.

(** The values of the parameters of [def name(p1, ..., pn)] in a call with
    the positional arguments [a] and the keyword arguments [k], parameter
    by parameter.  [None] is where Python raises TypeError: more positional
    arguments than parameters, a keyword that names no parameter or one
    already given by position, or a parameter left without a value. *)
Definition bind_arguments {V : Type} (params : list string) (a : list V)
    (k : list (string * V)) : option (list V) :=
  let rest := skipn (length a) params in
  if Nat.ltb (length params) (length a) then None
  else if forallb (fun kv => existsb (String.eqb (fst kv)) rest) k
       then match keywords rest k with
            | Some vs => Some (a ++ vs)
            | None => None
            end
       else None.

(** A function written [def name(p1, ..., pn): body]: the call binds the
    arguments and runs the body on the values of the parameters, or raises
    TypeError before the body starts. *)
Definition py_def `{Host} (name : string) (params : list string)
    (body : list value -> M world value) : callable :=
  {| __name__ := name;
     call := fun a k =>
       match bind_arguments params a k with
       | Some vs => body vs
       | None => fun w => (Raise TypeError, w)
       end |}.

(** The [Logger] of [examples.py]: it prints and returns. *)
Definition print_logger `{Host} : Logger := {| log := fun _ _ => None |}.

(** A logger whose [log] raises. *)
Definition failing_logger `{Host} : Logger :=
  {| log := fun _ _ => Some (Exception "logger failed") |}.

(** [error_fun] and [error_fun_caller] of [examples.py]: the undecorated
    functions, then the decorated ones. *)
Definition error_fun_body `{Host} : callable :=
  py_def "error_fun" [] (fun _ => fun w => (Raise (Exception "Booo"), w)).

Definition error_fun `{Host} (tracker : TimeTracker) : callable :=
  time_track tracker error_fun_body.

Definition error_fun_caller_body `{Host} (tracker : TimeTracker) : callable :=
  py_def "error_fun_caller" [] (fun _ => call (error_fun tracker) [] []).

Definition error_fun_caller `{Host} (tracker : TimeTracker) : callable :=
  time_track tracker (error_fun_caller_body tracker).

(** [dodo(x, i)] of [examples.py]: it returns [x]. *)
Definition dodo_body `{Host} (default : value) : callable :=
  py_def "dodo" ["x"; "i"] (fun vs => ret (nth 0 vs default)).

Definition dodo `{Host} (default : value) (tracker : TimeTracker) : callable :=
  time_track tracker (dodo_body default).

(** [boo(x, y)] of [examples.py]: it calls [dodo] twice and adds the
    results.  [plus] stands for [+] on the values and [d1], [d2] for the
    sleeping times [0.3] and [0.4] that it passes on.  The calls of
    [time.sleep] are left out: what time passes is the clock's business. *)
Definition boo_body `{Host} (default : value) (plus : value -> value -> value)
    (d1 d2 : value) (tracker : TimeTracker) : callable :=
  py_def "boo" ["x"; "y"]
    (fun vs =>
       x <- call (dodo default tracker) [nth 0 vs default; d1] [] ;;
       y <- call (dodo default tracker) [nth 1 vs default; d2] [] ;;
       ret (plus x y)).

Definition boo `{Host} (default : value) (plus : value -> value -> value)
    (d1 d2 : value) (tracker : TimeTracker) : callable :=
  time_track tracker (boo_body default plus d1 d2 tracker).

(** A function that takes any arguments, is not instrumented and raises at
    once. *)
Definition raiser `{Host} (e : exn) : callable :=
  {| __name__ := "raiser"; call := fun _ _ => fun w => (Raise e, w) |}.

(** A tracker on the freshly imported module, as [examples.py]
    builds it. *)
Definition fresh_tracker `{Host} (logger : Logger) (do_time_tracking isolated : bool)
  : TimeTracker * world :=
  match __init__ logger do_time_tracking isolated module_world with
  | (Return self, w) => (self, w)
  | (Raise _, w) =>
      ({| _logger := logger; _do_time_tracking := do_time_tracking;
          _entering_times := 0; _total_times := 1 |}, w)
  end.

(** ** Sample trackers and worlds on the ten-tick clock *)

Definition tracker0 : @TimeTracker ten_ticks :=
  fst (@fresh_tracker ten_ticks print_logger true true).

Definition world0 : @world ten_ticks :=
  snd (@fresh_tracker ten_ticks print_logger true true).

(** Two calls open, the second inside the first. *)
Definition world2 : @world ten_ticks := run tracker0 [Enter; Enter] world0.

(** The same tracker with a logger that raises. *)
Definition tracker_failing_logger : @TimeTracker ten_ticks :=
  fst (@fresh_tracker ten_ticks failing_logger true true).

(** A tracker that is switched off. *)
Definition tracker_off : @TimeTracker ten_ticks :=
  fst (@fresh_tracker ten_ticks print_logger false true).

(** [dodo] and [error_fun], undecorated, on this host. *)
Definition plain_dodo : @callable ten_ticks := @dodo_body ten_ticks 0%Z.

Definition plain_error_fun : @callable ten_ticks := @error_fun_body ten_ticks.

(** A shared tracker. *)
Definition tracker_shared : @TimeTracker ten_ticks :=
  fst (@fresh_tracker ten_ticks print_logger true false).

(** ** Further vocabulary: computations, call trees, rendering *)

Section Coverage.
Context `{Host}.

(** A computation that hands the entry stack of [self] back as it found it
    and changes at most the accumulator on top. *)
Definition restores_stacks (self : TimeTracker) (c : M world value) : Prop :=
  forall w ts p,
    heap w (_total_times self) = ts ++ [p] ->
    heap (snd (c w)) (_entering_times self) = heap w (_entering_times self)
    /\ exists p', heap (snd (c w)) (_total_times self) = ts ++ [p'].

(** A computation that leaves the list at address [l] alone. *)
Definition untouched (l : nat) (c : M world value) : Prop :=
  forall w, heap (snd (c w)) l = heap w l.

(** What a record says about the call it is for. *)
Definition call_of (m : message) : string * list value * list (string * value) :=
  (function_name m, args m, kwargs m).

(** The calls that the [Exit]s of a sequence close, in order. *)
Fixpoint exits (ops : list op) : list (string * list value * list (string * value)) :=
  match ops with
  | [] => []
  | Enter :: rest => exits rest
  | Exit f a k :: rest => (f, a, k) :: exits rest
  end.

(** [str(l)] for a list: the [repr] of its elements between brackets. *)
Definition list_str (repr : num -> string) (l : list num) : string :=
  ("[" ++ String.concat ", " (map repr l) ++ "]")%string.

(** [TimeTracker.__str__] (lines 42-46); [repr] is Python's [repr] on the
    numbers of the stacks. *)
Definition __str__ (repr : num -> string) (self : TimeTracker) : M world string :=
  fun w =>
    (Return ("entering_times: " ++ list_str repr (heap w (_entering_times self))
             ++ ", total_times: " ++ list_str repr (heap w (_total_times self)))%string,
     w).

End Coverage.

(** [f(x, i)] and [g(x, i)] of [examples.py], decorated.  On the values,
    [is_zero] stands for [== 0], [dec] for [- 1], [affine] for [3 * _ + 1]
    and [halve] for [/ 2]; [depth] bounds the nested calls of [f] as for
    [fibo]. *)
Definition g_around `{Host} (default : value) (dec halve : value -> value)
    (tracker : TimeTracker) (f : callable) : callable :=
  time_track tracker
    (py_def "g" ["x"; "i"]
       (fun vs =>
          res <- call f [dec (nth 0 vs default); dec (nth 1 vs default)] [] ;;
          ret (halve res))).

Fixpoint f `{Host} (default : value) (is_zero : value -> bool)
    (dec affine halve : value -> value) (tracker : TimeTracker) (depth : nat)
  : callable :=
  time_track tracker
    (py_def "f" ["x"; "i"]
       (fun vs =>
          let x := nth 0 vs default in
          let i := nth 1 vs default in
          if is_zero i then ret x
          else match depth with
               | 0 => fun w => (Raise (Exception "RecursionError"), w)
               | S d =>
                   r <- call (g_around default dec halve tracker
                                (f default is_zero dec affine halve tracker d))
                          [x; i] [] ;;
                   ret (affine r)
               end)).

Definition g `{Host} (default : value) (is_zero : value -> bool)
    (dec affine halve : value -> value) (tracker : TimeTracker) (depth : nat)
  : callable :=
  g_around default dec halve tracker
    (f default is_zero dec affine halve tracker depth).

(** What [f(x, i)] returns when [i] is [j] steps away from [0], and the
    names of the records it logs, innermost call first. *)
Fixpoint f_value `{Host} (dec affine halve : value -> value) (j : nat) (x : value)
  : value :=
  match j with
  | 0 => x
  | S j' => affine (halve (f_value dec affine halve j' (dec x)))
  end.

Fixpoint f_names (j : nat) : list string :=
  match j with
  | 0 => ["f"]
  | S j' => f_names j' ++ ["g"; "f"]
  end.

(** ** Integer hosts: time lines and [fibo] *)

(** The open calls, most recent first, against the accumulators, most recent
    first and the root last: every accumulator of an open call is
    non-negative, the time accumulated under a call lies before the entry of
    the call opened next, and [bound] holds of the time accumulated under the
    most recent one. *)
Fixpoint timeline (bound : Z -> Prop) (entries accs : list Z) : Prop :=
  match entries, accs with
  | [], [_] => True
  | t :: es, c :: cs =>
      (0 <= c)%Z /\ bound (t + c)%Z /\ timeline (fun x => (x <= t)%Z) es cs
  | _, _ => False
  end.

(** The stacks of [self] form a time line that every coming reading of the
    clock closes. *)
Definition timeline_ok (clk : nat -> Z) (self : @TimeTracker (ZHost clk))
    (w : @world (ZHost clk)) : Prop :=
  timeline (fun x => forall j, clock_reads w <= j -> (x <= clk j)%Z)
           (rev (heap w (_entering_times self)))
           (rev (heap w (_total_times self))).

(** Python's [repr] on integers, for the hosts with integer ticks. *)
Definition repr_int (clk : nat -> Z) (z : @num (ZHost clk)) : string :=
  NilZero.string_of_int (Z.to_int z).

(** A record whose partial time lies between [0] and its total time. *)
Definition ordered_times (clk : nat -> Z) (m : @message (ZHost clk)) : Prop :=
  (0 <= @partial_time (ZHost clk) m <= @total_time (ZHost clk) m)%Z.

(** The numbers that [fibo] of [examples.py] computes: 1, 1, 2, 3, 5, 8. *)
Fixpoint fib (n : nat) : Z :=
  match n with
  | 0 => 1%Z
  | S m => match m with
           | 0 => 1%Z
           | S k => (fib m + fib k)%Z
           end
  end.

(** [fibo(n)] of [examples.py], decorated.  The recursive calls go through the
    decorated function; [depth] is the number of nested recursive calls that
    the interpreter still allows, and Python's RecursionError is raised
    beyond it. *)
Fixpoint fibo (clk : nat -> Z) (tracker : @TimeTracker (ZHost clk)) (depth : nat)
  : @callable (ZHost clk) :=
  time_track tracker
    (@py_def (ZHost clk) "fibo" ["n"]
       (fun vs =>
          let n : Z := nth 0 vs 0%Z in
          if (n =? 0)%Z || (n =? 1)%Z then ret 1%Z
          else match depth with
               | 0 => fun w => (Raise (Exception "RecursionError"), w)
               | S d =>
                   x <- call (fibo clk tracker d) [(n - 1)%Z] [] ;;
                   y <- call (fibo clk tracker d) [(n - 2)%Z] [] ;;
                   ret (x + y)%Z
               end)).

(** Two sample call trees on the ten-tick clock: [f] calling [g(7)], and [f]
    calling [g] then [h]. *)
Definition calls_f_g : list (@op ten_ticks) :=
  [Enter; Enter; @Exit ten_ticks "g" [7%Z] []; Exit "f" [] []].

Definition calls_f_g_h : list (@op ten_ticks) :=
  [Enter; Enter; Exit "g" [] []; Enter; Exit "h" [] []; Exit "f" [] []].

(** The value operations of [f] and [g] on integers; [halve] is the integer
    half, which agrees with Python's [/ 2] on even numbers only. *)
Definition int_is_zero (z : Z) : bool := (z =? 0)%Z.
Definition int_dec (z : Z) : Z := (z - 1)%Z.
Definition int_affine (z : Z) : Z := (3 * z + 1)%Z.
Definition int_halve (z : Z) : Z := (z / 2)%Z.

(** ** The total times of top-level calls, by the clock alone *)






(** ** Lemmas on Python lists *)

Section PyList.
Context {A : Type}.

Lemma pop_snoc (l : list A) (x : A) : pop (l ++ [x]) = Some (x, l).
Proof.
  unfold pop. rewrite rev_app_distr. simpl. now rewrite rev_involutive.
Qed.

Lemma snoc_cases (l : list A) : l = [] \/ exists r x, l = r ++ [x].
Proof.
  destruct (rev l) as [|x r] eqn:E; apply (f_equal (@rev A)) in E;
    rewrite rev_involutive in E; [now left|].
  right. now exists (rev r), x.
Qed.

Lemma pop_none (l : list A) : pop l = None <-> l = [].
Proof.
  split; [|intros ->; reflexivity].
  destruct (snoc_cases l) as [->|(r & x & ->)]; [reflexivity|].
  rewrite pop_snoc. discriminate.
Qed.

Lemma pop_some (l r : list A) (x : A) : pop l = Some (x, r) <-> l = r ++ [x].
Proof.
  split; [|intros ->; apply pop_snoc].
  destruct (snoc_cases l) as [->|(r' & x' & ->)]; [discriminate|].
  rewrite pop_snoc. now intros [= -> ->].
Qed.

Lemma length_snoc (l : list A) (x : A) : length (l ++ [x]) = S (length l).
Proof. rewrite length_app. simpl. lia. Qed.

Lemma nonempty_snoc (l : list A) : l <> [] -> exists r x, l = r ++ [x].
Proof. destruct (snoc_cases l) as [->|E]; [congruence|auto]. Qed.

Lemma length_S_snoc (l : list A) (n : nat) :
  length l = S n -> exists r x, l = r ++ [x] /\ length r = n.
Proof.
  intros E. destruct (snoc_cases l) as [->|(r & x & ->)]; [discriminate|].
  rewrite length_snoc in E. exists r, x. split; [reflexivity|lia].
Qed.

Lemma hd_snoc (d x : A) (l : list A) : l <> [] -> hd d (l ++ [x]) = hd d l.
Proof. destruct l; [congruence|reflexivity]. Qed.

Lemma length_SS_snoc (l : list A) (n : nat) :
  length l = S (S n) -> exists r p c, l = r ++ [p; c] /\ length r = n.
Proof.
  intros E. destruct (length_S_snoc l (S n) E) as (r1 & c & -> & E1).
  destruct (length_S_snoc r1 n E1) as (r & p & -> & E2).
  exists r, p, c. split; [now rewrite <- app_assoc|exact E2].
Qed.
End PyList.

(** ** The primitive steps *)

Section Steps.
Context `{Host}.
Implicit Types (self : TimeTracker) (w : world).

Lemma upd_same h l v : upd h l v l = v.
Proof. unfold upd. now rewrite Nat.eqb_refl. Qed.

Lemma upd_other h l v l' : l' <> l -> upd h l v l' = h l'.
Proof. unfold upd. intros E. apply Nat.eqb_neq in E. now rewrite E. Qed.

(** [_enter] always returns; its whole effect: *)
Lemma _enter_run self w :
  _enter self w =
    (Return tt,
     {| heap := upd (upd (heap w) (_entering_times self)
                       (heap w (_entering_times self) ++ [clock (clock_reads w)]))
                    (_total_times self)
                    (upd (heap w) (_entering_times self)
                       (heap w (_entering_times self) ++ [clock (clock_reads w)])
                       (_total_times self) ++ [zero]);
        next_loc := next_loc w;
        clock_reads := S (clock_reads w);
        logged := logged w |}).
Proof. reflexivity. Qed.

Lemma _enter_entering self w :
  distinct_stacks self ->
  heap (snd (_enter self w)) (_entering_times self)
  = heap w (_entering_times self) ++ [clock (clock_reads w)].
Proof.
  intros D. rewrite _enter_run. simpl.
  rewrite upd_other by exact D. apply upd_same.
Qed.

Lemma _enter_total self w :
  distinct_stacks self ->
  heap (snd (_enter self w)) (_total_times self)
  = heap w (_total_times self) ++ [zero].
Proof.
  intros D. rewrite _enter_run. simpl.
  rewrite upd_same, upd_other by (intros E; apply D; now symmetry).
  reflexivity.
Qed.

Lemma _enter_frame self w : frame self w (snd (_enter self w)).
Proof.
  intros l E T. rewrite _enter_run. simpl. now rewrite !upd_other.
Qed.

(** [_exit] on an empty entry stack: the first [pop] raises. *)
Lemma _exit_empty self f a k w :
  heap w (_entering_times self) = [] ->
  _exit self f a k w = (Raise (IndexError "pop from empty list"), w).
Proof.
  intros E. unfold _exit, bind, list_pop. now rewrite E.
Qed.

(** [_exit] with an open call and its parent's accumulator below. *)
Lemma _exit_run self f a k w es t0 ts p c :
  distinct_stacks self ->
  heap w (_entering_times self) = es ++ [t0] ->
  heap w (_total_times self) = ts ++ [p; c] ->
  let total := sub (clock (clock_reads w)) t0 in
  let m := {| function_name := f; args := a; kwargs := k;
              total_time := total; partial_time := sub total c |} in
  _exit self f a k w =
    (match log (_logger self) m (logged w) with
     | None => Return tt
     | Some e => Raise e
     end,
     {| heap := upd (upd (upd (heap w) (_entering_times self) es)
                         (_total_times self) (ts ++ [p]))
                    (_total_times self) (ts ++ [add p total]);
        next_loc := next_loc w;
        clock_reads := S (clock_reads w);
        logged := logged w ++ [m] |}).
Proof.
  intros D E T. simpl.
  unfold _exit, bind, list_pop. rewrite E, pop_snoc. simpl.
  rewrite upd_other by (intros X; apply D; now symmetry).
  rewrite T. change (ts ++ [p; c]) with (ts ++ [p] ++ [c]).
  rewrite app_assoc, pop_snoc. simpl.
  unfold list_iadd_last. simpl. rewrite upd_same, pop_snoc. simpl.
  reflexivity.
Qed.

(** [_exit] when the accumulator list holds a single element: both pops
    succeed and [self._total_times[-1]] raises. *)
Lemma _exit_no_parent self f a k w es t0 c :
  distinct_stacks self ->
  heap w (_entering_times self) = es ++ [t0] ->
  heap w (_total_times self) = [c] ->
  _exit self f a k w =
    (Raise (IndexError "list index out of range"),
     {| heap := upd (upd (heap w) (_entering_times self) es)
                    (_total_times self) [];
        next_loc := next_loc w;
        clock_reads := S (clock_reads w);
        logged := logged w |}).
Proof.
  intros D E T.
  unfold _exit, bind, list_pop. rewrite E, pop_snoc. simpl.
  rewrite upd_other by (intros X; apply D; now symmetry).
  rewrite T. simpl.
  unfold list_iadd_last. simpl. rewrite upd_same. reflexivity.
Qed.

(** [_exit] when the accumulator list is empty: the second [pop] raises. *)
Lemma _exit_no_total self f a k w es t0 :
  distinct_stacks self ->
  heap w (_entering_times self) = es ++ [t0] ->
  heap w (_total_times self) = [] ->
  _exit self f a k w =
    (Raise (IndexError "pop from empty list"),
     set_heap w (upd (heap w) (_entering_times self) es)).
Proof.
  intros D E T.
  unfold _exit, bind, list_pop. rewrite E, pop_snoc. simpl.
  rewrite upd_other by (intros X; apply D; now symmetry).
  rewrite T. reflexivity.
Qed.

(** The effect of [_exit] on an open call, field by field. *)
Lemma _exit_spec self f a k w es t0 ts p c :
  distinct_stacks self ->
  heap w (_entering_times self) = es ++ [t0] ->
  heap w (_total_times self) = ts ++ [p; c] ->
  let total := sub (clock (clock_reads w)) t0 in
  let m := {| function_name := f; args := a; kwargs := k;
              total_time := total; partial_time := sub total c |} in
  let w' := snd (_exit self f a k w) in
  fst (_exit self f a k w)
  = match log (_logger self) m (logged w) with
    | None => Return tt
    | Some e => Raise e
    end
  /\ heap w' (_entering_times self) = es
  /\ heap w' (_total_times self) = ts ++ [add p total]
  /\ logged w' = logged w ++ [m]
  /\ clock_reads w' = S (clock_reads w)
  /\ next_loc w' = next_loc w
  /\ frame self w w'.
Proof.
  intros D E T. simpl.
  rewrite (_exit_run self f a k w es t0 ts p c D E T). simpl.
  split; [reflexivity|]. split.
  { do 2 (rewrite upd_other by exact D). apply upd_same. }
  split; [apply upd_same|]. repeat (split; [reflexivity|]).
  intros l Le Lt. simpl. now rewrite !upd_other.
Qed.

Lemma emitted_snoc w w' (l : list message) :
  logged w' = logged w ++ l -> emitted w w' = l.
Proof.
  unfold emitted. intros ->. induction (logged w); simpl; auto.
Qed.

Lemma emitted_same w w' : logged w' = logged w -> emitted w w' = [].
Proof.
  intros E. apply emitted_snoc. now rewrite app_nil_r.
Qed.

Lemma run_app self (ops1 ops2 : list op) w :
  run self (ops1 ++ ops2) w = run self ops2 (run self ops1 w).
Proof.
  revert w. induction ops1 as [|o ops1 IH]; intros w; simpl; auto.
Qed.

Lemma records_at_app self d (ops1 ops2 : list op) w :
  records_at self d (ops1 ++ ops2) w
  = records_at self d ops1 w ++ records_at self d ops2 (run self ops1 w).
Proof.
  revert w. induction ops1 as [|o ops1 IH]; intros w; simpl; auto.
  now rewrite IH, app_assoc.
Qed.

End Steps.

(** ** Sequences of operations *)

Section Sequences.
Context `{Host}.
Implicit Types (self : TimeTracker) (w : world) (ops : list op).

Lemma _enter_lengths self w :
  distinct_stacks self ->
  length (heap (snd (_enter self w)) (_entering_times self))
  = S (length (heap w (_entering_times self)))
  /\ length (heap (snd (_enter self w)) (_total_times self))
    = S (length (heap w (_total_times self))).
Proof.
  intros D. rewrite _enter_entering, _enter_total by exact D.
  now rewrite !length_snoc.
Qed.

(** Both pops of [_exit] succeed as soon as both lists are non-empty,
    whatever happens afterwards. *)
Lemma _exit_lengths self f a k w :
  distinct_stacks self ->
  heap w (_entering_times self) <> [] ->
  heap w (_total_times self) <> [] ->
  S (length (heap (snd (_exit self f a k w)) (_entering_times self)))
  = length (heap w (_entering_times self))
  /\ S (length (heap (snd (_exit self f a k w)) (_total_times self)))
    = length (heap w (_total_times self)).
Proof.
  intros D E T.
  destruct (nonempty_snoc _ E) as (es & t0 & Ee).
  destruct (nonempty_snoc _ T) as (ts1 & c & Et).
  destruct (snoc_cases ts1) as [->|(ts & p & ->)].
  - rewrite (_exit_no_parent self f a k w es t0 c D Ee Et). simpl.
    rewrite upd_same, upd_other, upd_same by exact D.
    rewrite Ee, Et, length_snoc. now split.
  - rewrite <- app_assoc in Et. simpl in Et.
    destruct (_exit_spec self f a k w es t0 ts p c D Ee Et)
      as (_ & E' & T' & _).
    rewrite E', T', Ee, Et, !length_app. simpl. lia.
Qed.

Lemma invariant_step self (o : op) w :
  distinct_stacks self -> invariant self w ->
  invariant self (snd (step self o w)).
Proof.
  unfold invariant. intros D I. destruct o as [|f a k]; cbn [step].
  - destruct (_enter_lengths self w D) as [-> ->]. now rewrite I.
  - destruct (heap w (_entering_times self)) as [|x l] eqn:E.
    + rewrite _exit_empty by exact E. simpl. now rewrite E.
    + assert (Ne : heap w (_entering_times self) <> []) by now rewrite E.
      assert (Nt : heap w (_total_times self) <> []).
      { intros Z. rewrite Z in I. discriminate. }
      destruct (_exit_lengths self f a k w D Ne Nt) as [L1 L2].
      rewrite E in L1. lia.
Qed.

Lemma invariant_run self ops w :
  distinct_stacks self -> invariant self w -> invariant self (run self ops w).
Proof.
  intros D. revert w. induction ops as [|o ops IH]; intros w I; cbn [run]; auto.
  apply IH. now apply invariant_step.
Qed.

(** A properly nested sequence restores the length of both lists, from
    every state. *)
Lemma nested_lengths self ops :
  distinct_stacks self -> nested ops ->
  forall w,
    length (heap (run self ops w) (_entering_times self))
    = length (heap w (_entering_times self))
    /\ length (heap (run self ops w) (_total_times self))
      = length (heap w (_total_times self)).
Proof.
  intros D N. induction N as [|f a k body rest _ IHb _ IHr]; intros w.
  - now split.
  - change (Enter :: body ++ Exit f a k :: rest)
      with ([Enter] ++ body ++ [Exit f a k] ++ rest).
    rewrite !run_app. cbn [run step].
    set (w1 := snd (_enter self w)).
    set (w2 := run self body w1).
    destruct (_enter_lengths self w D) as [E1 T1]. fold w1 in E1, T1.
    destruct (IHb w1) as [E2 T2]. fold w2 in E2, T2.
    assert (Ne : heap w2 (_entering_times self) <> []).
    { intros Z. rewrite Z in E2. cbn [length] in E2. lia. }
    assert (Nt : heap w2 (_total_times self) <> []).
    { intros Z. rewrite Z in T2. cbn [length] in T2. lia. }
    destruct (_exit_lengths self f a k w2 D Ne Nt) as [E3 T3].
    destruct (IHr (snd (_exit self f a k w2))) as [E4 T4].
    lia.
Qed.

(** Inside a properly nested sequence started with [n] open calls, every
    [Exit] is issued with more than [n] calls open. *)
Lemma nested_records_shallow self ops :
  distinct_stacks self -> nested ops ->
  forall w d, d <= length (heap w (_entering_times self)) ->
              records_at self d ops w = [].
Proof.
  intros D N. induction N as [|f a k body rest Nb IHb _ IHr]; intros w d L.
  - reflexivity.
  - change (Enter :: body ++ Exit f a k :: rest)
      with ([Enter] ++ body ++ [Exit f a k] ++ rest).
    rewrite !records_at_app. cbn [records_at run step app].
    set (w1 := snd (_enter self w)).
    set (w2 := run self body w1).
    destruct (_enter_lengths self w D) as [E1 T1]. fold w1 in E1, T1.
    destruct (nested_lengths self body D Nb w1) as [E2 _]. fold w2 in E2.
    rewrite IHb by lia.
    replace (Nat.eqb (length (heap w2 (_entering_times self))) d) with false
      by (symmetry; apply Nat.eqb_neq; lia).
    cbn [app]. apply IHr.
    assert (Ne : heap w2 (_entering_times self) <> []).
    { intros Z. rewrite Z in E2. cbn [length] in E2. lia. }
    destruct (snoc_cases (heap w2 (_total_times self))) as [Zt|(ts & c & Et)].
    + destruct (nonempty_snoc _ Ne) as (es & t0 & Ee).
      rewrite (_exit_no_total self f a k w2 es t0 D Ee Zt).
      cbn [snd set_heap heap]. rewrite upd_same.
      rewrite Ee, length_snoc in E2. lia.
    + assert (Nt : heap w2 (_total_times self) <> []).
      { rewrite Et. now destruct ts. }
      destruct (_exit_lengths self f a k w2 D Ne Nt) as [E3 _]. lia.
Qed.

Lemma accumulate_cons (r x : num) (l : list num) :
  accumulate r (x :: l) = accumulate (add r x) l.
Proof. reflexivity. Qed.

(** What a properly nested sequence does to the stacks: the entry stack is
    restored, and the accumulator on top has received, in order, the total
    time of each call the sequence completes directly under it. *)
Lemma nested_spec self ops :
  distinct_stacks self -> nested ops ->
  forall w ts p,
    heap w (_total_times self) = ts ++ [p] ->
    let w' := run self ops w in
    heap w' (_entering_times self) = heap w (_entering_times self)
    /\ heap w' (_total_times self)
      = ts ++ [accumulate p
                 (map total_time
                    (records_at self (S (length (heap w (_entering_times self))))
                       ops w))].
Proof.
  intros D N. induction N as [|f a k body rest Nb IHb _ IHr]; intros w ts p T.
  - cbn. now split.
  - cbv zeta.
    change (Enter :: body ++ Exit f a k :: rest)
      with ([Enter] ++ body ++ [Exit f a k] ++ rest).
    rewrite !records_at_app, !run_app. cbn [records_at run step app].
    set (n := length (heap w (_entering_times self))).
    set (w1 := snd (_enter self w)).
    set (w2 := run self body w1).
    set (w3 := snd (_exit self f a k w2)).
    pose proof (_enter_entering self w D) as E1. fold w1 in E1.
    pose proof (_enter_total self w D) as T1. fold w1 in T1.
    rewrite T in T1.
    destruct (IHb w1 (ts ++ [p]) zero T1) as [E2 T2]. fold w2 in E2, T2.
    rewrite E1 in E2. rewrite <- app_assoc in T2. cbn [app] in T2.
    destruct (_exit_spec self f a k w2 _ _ _ _ _ D E2 T2)
      as (_ & E3 & T3 & L3 & _).
    fold w3 in E3, T3, L3.
    destruct (IHr w3 ts _ T3) as [E4 T4].
    rewrite E3 in T4. fold n in T4.
    rewrite (nested_records_shallow self body D Nb w1 (S n))
      by (rewrite E1, length_snoc; subst n; lia).
    rewrite E2, length_snoc. fold n. rewrite Nat.eqb_refl.
    rewrite (emitted_snoc _ _ _ L3). cbn [app map total_time].
    rewrite accumulate_cons.
    split; [now rewrite E4|exact T4].
Qed.

(** The bottom accumulator under arbitrary sequences: it receives exactly
    the total times of the completed top-level calls. *)
Lemma root_accumulates self ops :
  distinct_stacks self ->
  forall w, invariant self w ->
    hd zero (heap (run self ops w) (_total_times self))
    = accumulate (hd zero (heap w (_total_times self)))
        (map total_time (top_level_records self ops w)).
Proof.
  intros D. unfold top_level_records.
  induction ops as [|o ops IH]; intros w I; [reflexivity|].
  cbn [run records_at].
  rewrite (IH _ (invariant_step self o w D I)).
  rewrite map_app. unfold accumulate. rewrite fold_left_app. f_equal.
  unfold invariant in I.
  destruct o as [|f a k]; cbn [step].
  - rewrite _enter_total by exact D. cbn [map fold_left].
    apply hd_snoc. intros Z. now rewrite Z in I.
  - destruct (snoc_cases (heap w (_entering_times self))) as [Z|(es & t0 & Ee)].
    + rewrite _exit_empty by exact Z. rewrite Z. reflexivity.
    + rewrite Ee, length_snoc in I.
      destruct (length_SS_snoc _ _ I) as (ts & p & c & Et & Lt).
      destruct (_exit_spec self f a k w es t0 ts p c D Ee Et)
        as (_ & _ & T' & L' & _).
      rewrite T', Ee, Et, length_snoc.
      destruct es as [|e0 es].
      * destruct ts; [|discriminate]. cbn [length Nat.eqb].
        rewrite (emitted_snoc _ _ _ L'). reflexivity.
      * destruct ts as [|p0 ts]; [discriminate|].
        cbn [length Nat.eqb map fold_left]. reflexivity.
Qed.

End Sequences.

(** ** The decorator *)

Section Wrapper.
Context `{Host}.
Implicit Types (self : TimeTracker) (w : world) (function : callable).

(** [wrapped], path by path: [_enter], the call, [_exit] on either outcome;
    a failure of [_exit] replaces the outcome of the call. *)
Lemma wrapped_run self function a k w :
  wrapped self function a k w
  = let w0 := snd (_enter self w) in
    let r := call function a k w0 in
    let x := _exit self (__name__ function) a k (snd r) in
    (match fst x with
     | Return _ => fst r
     | Raise e => Raise e
     end, snd x).
Proof.
  unfold wrapped, bind, try_finally. rewrite _enter_run. cbn [snd].
  destruct (call function a k _) as [r w1]. cbn [fst snd].
  destruct (_exit self (__name__ function) a k w1) as [[[]|e] w2];
    cbn [fst snd]; [destruct r|]; reflexivity.
Qed.

(** When [_exit] returns, it has handed one record to the logger, built
    from its three arguments. *)
Lemma _exit_returns_inv self f a k w :
  fst (_exit self f a k w) = Return tt ->
  exists m,
    logged (snd (_exit self f a k w)) = logged w ++ [m]
    /\ function_name m = f /\ args m = a /\ kwargs m = k
    /\ log (_logger self) m (logged w) = None.
Proof.
  unfold _exit, bind, list_pop, time_time, list_iadd_last, logger_log.
  destruct (pop (heap w (_entering_times self))) as [[t0 es]|];
    [|discriminate].
  cbn [set_heap heap next_loc clock_reads logged].
  destruct (pop (upd _ _ _ _)) as [[c ts]|]; [|discriminate].
  cbn [set_heap heap next_loc clock_reads logged].
  destruct (pop (upd _ _ _ _)) as [[p ts']|]; [|discriminate].
  cbn [set_heap heap next_loc clock_reads logged fst snd].
  destruct (log _ _ _) eqn:L; [discriminate|]. intros _.
  eexists. split; [reflexivity|]. cbn. repeat split. exact L.
Qed.

(** [_exit] returns exactly when the stacks hold an open call above a
    parent accumulator and the logger returns. *)
Lemma _exit_returns_iff self f a k w :
  distinct_stacks self ->
  fst (_exit self f a k w) = Return tt <->
  exists es t0 ts p c,
    heap w (_entering_times self) = es ++ [t0]
    /\ heap w (_total_times self) = ts ++ [p; c]
    /\ log (_logger self)
         {| function_name := f; args := a; kwargs := k;
            total_time := sub (clock (clock_reads w)) t0;
            partial_time := sub (sub (clock (clock_reads w)) t0) c |}
         (logged w) = None.
Proof.
  intros D. split.
  - intros R.
    destruct (snoc_cases (heap w (_entering_times self))) as [Z|(es & t0 & Ee)].
    { rewrite _exit_empty in R by exact Z. discriminate. }
    destruct (snoc_cases (heap w (_total_times self))) as [Z|(ts1 & c & Et)].
    { rewrite (_exit_no_total self f a k w es t0 D Ee Z) in R. discriminate. }
    destruct (snoc_cases ts1) as [->|(ts & p & ->)].
    { rewrite (_exit_no_parent self f a k w es t0 c D Ee Et) in R.
      discriminate. }
    rewrite <- app_assoc in Et. cbn [app] in Et.
    exists es, t0, ts, p, c. repeat (split; [assumption|]).
    destruct (_exit_spec self f a k w es t0 ts p c D Ee Et) as (F & _).
    rewrite F in R. now destruct (log _ _ _).
  - intros (es & t0 & ts & p & c & Ee & Et & L).
    destruct (_exit_spec self f a k w es t0 ts p c D Ee Et) as (F & _).
    rewrite F. now rewrite L.
Qed.

(** A chain of instrumented calls around a function whose outcome is
    [out] and which leaves the world alone: the chain has the same
    outcome, each of its wrappers logs one record, innermost first, and the
    stacks come back as they were. *)
Lemma call_chain_outcome self (names : list string) (inner : callable) a k out :
  _do_time_tracking self = true ->
  distinct_stacks self -> quiet (_logger self) ->
  (forall w, call inner a k w = (out, w)) ->
  forall w, heap w (_total_times self) <> [] ->
    let r := call (call_chain self names inner) a k w in
    fst r = out
    /\ (exists ms, logged (snd r) = logged w ++ ms
                   /\ map function_name ms = rev names)
    /\ heap (snd r) (_entering_times self) = heap w (_entering_times self)
    /\ length (heap (snd r) (_total_times self))
       = length (heap w (_total_times self)).
Proof.
  intros Fl D Q In. induction names as [|n rest IH]; intros w Nt; cbv zeta.
  - cbn [call_chain]. rewrite In. cbn [fst snd].
    split; [reflexivity|]. split; [|now split].
    exists []. now rewrite app_nil_r.
  - cbn [call_chain]. unfold time_track. rewrite Fl.
    cbn [_time_track call]. rewrite wrapped_run. cbn [call __name__].
    set (w0 := snd (_enter self w)).
    pose proof (_enter_entering self w D) as E0. fold w0 in E0.
    pose proof (_enter_total self w D) as T0. fold w0 in T0.
    assert (Nt0 : heap w0 (_total_times self) <> []).
    { rewrite T0. now destruct (heap w (_total_times self)). }
    destruct (IH w0 Nt0) as (F1 & (ms & L1 & N1) & E1 & T1).
    set (r1 := call (call_chain self rest inner) a k w0) in *.
    rewrite E0 in E1. rewrite T0, length_snoc in T1.
    destruct (nonempty_snoc _ Nt) as (ts & p & Et).
    rewrite Et, length_snoc in T1.
    destruct (length_SS_snoc _ _ T1) as (ts' & p' & c' & Et1 & Lt1).
    destruct (_exit_spec self n a k (snd r1) _ _ _ _ _ D E1 Et1)
      as (F2 & E2 & T2 & L2 & _).
    rewrite Q in F2. cbv zeta. cbn [fst snd]. rewrite F2.
    split; [exact F1|]. split; [|split].
    + eexists. rewrite L2, L1, <- app_assoc. split; [reflexivity|].
      rewrite map_app, N1. reflexivity.
    + rewrite E2. reflexivity.
    + rewrite T2, Et, !length_snoc, Lt1. clear. lia.
Qed.

End Wrapper.

(** ** Construction and storage *)

Section Construction.
Context `{Host}.
Implicit Types (self : TimeTracker) (w : world).

Lemma __init___isolated logger d w :
  __init__ logger d true w
  = (Return {| _logger := logger; _do_time_tracking := d;
               _entering_times := next_loc w;
               _total_times := S (next_loc w) |},
     {| heap := upd (upd (heap w) (next_loc w) []) (S (next_loc w)) [zero];
        next_loc := S (S (next_loc w));
        clock_reads := clock_reads w;
        logged := logged w |}).
Proof. reflexivity. Qed.

Lemma __init___shared logger d w :
  __init__ logger d false w
  = (Return {| _logger := logger; _do_time_tracking := d;
               _entering_times := _time_tracker_global_entering_times;
               _total_times := _time_tracker_global_total_times |},
     w).
Proof. reflexivity. Qed.

(** The world that a step leaves does not depend on the logger of the
    tracker, only on the two lists it references. *)
Lemma step_world_same_lists (s1 s2 : TimeTracker) (o : op) w :
  _entering_times s1 = _entering_times s2 ->
  _total_times s1 = _total_times s2 ->
  snd (step s1 o w) = snd (step s2 o w).
Proof.
  destruct s1 as [l1 d1 e1 t1], s2 as [l2 d2 e2 t2]. cbn. intros -> ->.
  destruct o as [|f a k]; [reflexivity|].
  cbn [step]. unfold _exit, bind, list_pop, time_time, list_iadd_last, logger_log.
  cbn [_entering_times _total_times _logger].
  destruct (pop (heap w e2)) as [[t0 es]|]; [|reflexivity].
  cbn [set_heap heap next_loc clock_reads logged].
  destruct (pop (upd _ _ _ _)) as [[c ts]|]; [|reflexivity].
  cbn [set_heap heap next_loc clock_reads logged].
  destruct (pop (upd _ _ _ _)) as [[p ts']|]; reflexivity.
Qed.

(** A step of any tracker leaves every other list untouched. *)
Lemma step_frame self (o : op) w : frame self w (snd (step self o w)).
Proof.
  destruct o as [|f a k]; cbn [step]; [apply _enter_frame|].
  intros l Le Lt.
  unfold _exit, bind, list_pop, time_time, list_iadd_last, logger_log.
  destruct (pop (heap w (_entering_times self))) as [[t0 es]|]; [|reflexivity].
  cbn [set_heap heap next_loc clock_reads logged].
  destruct (pop (upd _ _ _ _)) as [[c ts]|];
    [|cbn; now rewrite upd_other].
  cbn [set_heap heap next_loc clock_reads logged].
  destruct (pop (upd _ _ _ _)) as [[p ts']|];
    cbn; now rewrite !upd_other.
Qed.

(** Enter and exit act on the contents of the two lists in the same way
    wherever the lists are stored. *)
Lemma step_storage_independent (s1 s2 : TimeTracker) (o : op) (w1 w2 : world) :
  distinct_stacks s1 -> distinct_stacks s2 ->
  _logger s1 = _logger s2 ->
  heap w1 (_entering_times s1) = heap w2 (_entering_times s2) ->
  heap w1 (_total_times s1) = heap w2 (_total_times s2) ->
  clock_reads w1 = clock_reads w2 ->
  logged w1 = logged w2 ->
  let w1' := snd (step s1 o w1) in
  let w2' := snd (step s2 o w2) in
  fst (step s1 o w1) = fst (step s2 o w2)
  /\ heap w1' (_entering_times s1) = heap w2' (_entering_times s2)
  /\ heap w1' (_total_times s1) = heap w2' (_total_times s2)
  /\ clock_reads w1' = clock_reads w2'
  /\ logged w1' = logged w2'.
Proof.
  intros D1 D2 Lg E T C L. cbv zeta. destruct o as [|f a k]; cbn [step].
  - rewrite !_enter_entering, !_enter_total by assumption.
    rewrite !_enter_run. cbn [fst snd clock_reads logged].
    now rewrite E, T, C, L.
  - destruct (snoc_cases (heap w2 (_entering_times s2))) as [Z|(es & t0 & Ee)].
    { rewrite !_exit_empty by congruence. cbn [fst snd]. now rewrite E, T, C, L. }
    assert (Ee1 : heap w1 (_entering_times s1) = es ++ [t0]) by congruence.
    destruct (snoc_cases (heap w2 (_total_times s2))) as [Z|(ts1 & c & Et)].
    { assert (Z1 : heap w1 (_total_times s1) = []) by congruence.
      rewrite (_exit_no_total s1 f a k w1 es t0 D1 Ee1 Z1).
      rewrite (_exit_no_total s2 f a k w2 es t0 D2 Ee Z).
      cbn [fst snd set_heap heap clock_reads logged].
      rewrite !upd_same, !upd_other by (intros X; congruence).
      now rewrite Z, Z1, C, L. }
    assert (Et1 : heap w1 (_total_times s1) = ts1 ++ [c]) by congruence.
    destruct (snoc_cases ts1) as [->|(ts & p & ->)].
    { rewrite (_exit_no_parent s1 f a k w1 es t0 c D1 Ee1 Et1).
      rewrite (_exit_no_parent s2 f a k w2 es t0 c D2 Ee Et).
      cbn [fst snd heap clock_reads logged].
      rewrite (upd_other _ _ _ _ D1), (upd_other _ _ _ _ D2), !upd_same.
      now rewrite C, L. }
    rewrite <- app_assoc in Et, Et1. cbn [app] in Et, Et1.
    destruct (_exit_spec s1 f a k w1 es t0 ts p c D1 Ee1 Et1)
      as (F1 & E1' & T1' & L1' & C1' & _).
    destruct (_exit_spec s2 f a k w2 es t0 ts p c D2 Ee Et)
      as (F2 & E2' & T2' & L2' & C2' & _).
    rewrite F1, F2, E1', E2', T1', T2', L1', L2', C1', C2'.
    now rewrite Lg, C, L.
Qed.

End Construction.

(** ** Argument binding of the sample functions *)

(** [dodo(x=5, i=3)] returns [5]; [dodo()], [dodo(5)], [dodo(5, 3, 1)],
    [dodo(5, x=3)] and [dodo(5, 3, z=1)] raise TypeError. *)
Example dodo_binding :
  fst (call plain_dodo [] [("x", 5%Z); ("i", 3%Z)] world0) = Return 5%Z
  /\ fst (call plain_dodo [5%Z] [("i", 3%Z)] world0) = Return 5%Z
  /\ fst (call plain_dodo [] [] world0) = Raise TypeError
  /\ fst (call plain_dodo [5%Z] [] world0) = Raise TypeError
  /\ fst (call plain_dodo [5%Z; 3%Z; 1%Z] [] world0) = Raise TypeError
  /\ fst (call plain_dodo [5%Z] [("x", 3%Z)] world0) = Raise TypeError
  /\ fst (call plain_dodo [5%Z; 3%Z] [("z", 1%Z)] world0) = Raise TypeError.
Proof. repeat split. Qed.

(** ** The scenarios of [examples.py] on the ten-tick clock *)

(** [boo(1, 2)]: three records, the two [dodo] calls then [boo]; the partial
    time of [boo] is its total time minus the totals of both children. *)
Example boo_records :
  let r := call (@boo ten_ticks 0%Z Z.add 3%Z 4%Z tracker0) [1%Z; 2%Z] [] world0 in
  fst r = Return 3%Z
  /\ map (fun m => (function_name m, total_time m, partial_time m)) (logged (snd r))
     = [("dodo", 10%Z, 10%Z); ("dodo", 10%Z, 10%Z); ("boo", 50%Z, 30%Z)]
  /\ heap (snd r) (_entering_times tracker0) = []
  /\ heap (snd r) (_total_times tracker0) = [50%Z].
Proof. repeat split. Qed.

(** [error_fun_caller()]: two records, callee then caller, and the failure
    of [error_fun] reaches the caller of the wrapper. *)
Example error_fun_caller_records :
  let r := call (error_fun_caller tracker0) [] [] world0 in
  fst r = Raise (Exception "Booo")
  /\ map (fun m => (function_name m, total_time m, partial_time m)) (logged (snd r))
     = [("error_fun", 10%Z, 10%Z); ("error_fun_caller", 30%Z, 20%Z)]
  /\ heap (snd r) (_entering_times tracker0) = []
  /\ heap (snd r) (_total_times tracker0) = [30%Z].
Proof. repeat split. Qed.

(** ** A clock that does not go backwards *)

Section OrderedClock.
Context `{Host}.
Variable le : num -> num -> Prop.
Hypothesis le_refl : forall x, le x x.
Hypothesis le_trans : forall x y z, le x y -> le y z -> le x z.
Hypothesis add_nonneg : forall r x, le zero x -> le r (add r x).
Hypothesis sub_nonneg : forall a b, le a b -> le zero (sub b a).
Hypothesis clock_monotone : forall i j, i <= j -> le (clock i) (clock j).
Implicit Types (self : TimeTracker) (w : world).

Lemma entries_from_clock_weaken (l : list num) (n n' : nat) :
  n <= n' ->
  Forall (fun t => exists i, i < n /\ t = clock i) l ->
  Forall (fun t => exists i, i < n' /\ t = clock i) l.
Proof.
  intros L. apply Forall_impl. intros t (i & Li & ->). exists i. split; [lia|reflexivity].
Qed.

Lemma entries_from_clock_step self (o : op) w :
  distinct_stacks self -> entries_from_clock self w ->
  entries_from_clock self (snd (step self o w)).
Proof.
  unfold entries_from_clock. intros D F. destruct o as [|f a k]; cbn [step].
  - rewrite _enter_entering by exact D. rewrite _enter_run. cbn [snd clock_reads].
    apply Forall_app. split.
    + apply (entries_from_clock_weaken _ (clock_reads w)); [lia|exact F].
    + constructor; [|constructor]. exists (clock_reads w). split; [lia|reflexivity].
  - destruct (snoc_cases (heap w (_entering_times self))) as [Z|(es & t0 & Ee)].
    { rewrite _exit_empty by exact Z. exact F. }
    rewrite Ee in F. apply Forall_app in F. destruct F as [F _].
    destruct (snoc_cases (heap w (_total_times self))) as [Z|(ts1 & c & Et)].
    { rewrite (_exit_no_total self f a k w es t0 D Ee Z).
      cbn [snd set_heap heap clock_reads]. now rewrite upd_same. }
    destruct (snoc_cases ts1) as [->|(ts & p & ->)].
    { rewrite (_exit_no_parent self f a k w es t0 c D Ee Et).
      cbn [snd heap clock_reads]. rewrite (upd_other _ _ _ _ D), upd_same.
      apply (entries_from_clock_weaken _ (clock_reads w)); [lia|exact F]. }
    rewrite <- app_assoc in Et. cbn [app] in Et.
    destruct (_exit_spec self f a k w es t0 ts p c D Ee Et)
      as (_ & E' & _ & _ & C' & _).
    rewrite E', C'.
    apply (entries_from_clock_weaken _ (clock_reads w)); [lia|exact F].
Qed.

(** No operation makes the root accumulator smaller. *)
Lemma root_step_never_decreases self (o : op) w :
  distinct_stacks self -> invariant self w -> entries_from_clock self w ->
  le (hd zero (heap w (_total_times self)))
     (hd zero (heap (snd (step self o w)) (_total_times self))).
Proof.
  intros D I F.
  pose proof (root_accumulates self [o] D w I) as R. cbn [run] in R.
  rewrite R. unfold top_level_records. cbn [records_at].
  destruct o as [|f a k]; [apply le_refl|].
  destruct (Nat.eqb (length (heap w (_entering_times self))) 1) eqn:L;
    [|apply le_refl].
  apply Nat.eqb_eq in L. unfold invariant in I. rewrite L in I.
  destruct (length_S_snoc _ _ L) as (es & t0 & Ee & _).
  destruct (length_SS_snoc _ _ I) as (ts & p & c & Et & _).
  destruct (_exit_spec self f a k w es t0 ts p c D Ee Et)
    as (_ & _ & _ & L' & _).
  cbn [step]. rewrite (emitted_snoc _ _ _ L'). cbn.
  apply add_nonneg, sub_nonneg.
  unfold entries_from_clock in F. rewrite Ee in F.
  apply Forall_app in F. destruct F as [_ F].
  inversion F as [|? ? (i & Li & ->) _]. apply clock_monotone. lia.
Qed.

(** X9.  With an order on the numbers for which adding a non-negative
    number does not decrease, a difference [b - a] with [a <= b] is
    non-negative, and the clock does not go backwards: no sequence of
    operations makes the root accumulator smaller, from any state that keeps
    the length invariant and whose entry timestamps are earlier readings of
    the clock. *)
Lemma root_never_decreases self (ops : list op) w :
  distinct_stacks self -> invariant self w -> entries_from_clock self w ->
  le (hd zero (heap w (_total_times self)))
     (hd zero (heap (run self ops w) (_total_times self))).
Proof.
  intros D. revert w. induction ops as [|o ops IH]; intros w I F; cbn [run].
  - apply le_refl.
  - eapply le_trans; [apply (root_step_never_decreases self o w D I F)|].
    apply IH; [now apply invariant_step|now apply entries_from_clock_step].
Qed.

End OrderedClock.

(** On the ten-tick clock the root accumulator of a new tracker does not
    decrease along the sample call tree. *)
Lemma root_never_decreases_witness :
  (0 <= hd 0 (heap (run tracker0 calls_f_g_h world0) (_total_times tracker0)))%Z.
Proof.
  assert (A : forall r x : Z, (0 <= x -> r <= r + x)%Z) by (intros; lia).
  assert (S : forall a b : Z, (a <= b -> 0 <= b - a)%Z) by (intros; lia).
  assert (C : forall i j, i <= j -> (10 * Z.of_nat i <= 10 * Z.of_nat j)%Z)
    by (intros; lia).
  apply (@root_never_decreases ten_ticks Z.le Z.le_refl Z.le_trans A S C
           tracker0 calls_f_g_h world0).
  - vm_compute. discriminate.
  - vm_compute. reflexivity.
  - constructor.
Defined.

(** ** The properties of the specification *)

(** C1.  On a tracker whose entry stack is not empty, [_exit] pops the most
    recent entry timestamp [t0] and the most recent accumulator [c], emits a
    record with [total_time = now - t0] and [partial_time = total_time - c],
    and adds [total_time] into the accumulator [p] that is now on top.  The
    parent in turn, whatever further nested calls [later] it makes, gets a
    [partial_time] equal to its own [total_time] minus the accumulator that
    started from [p + total_time], so this child's total is excluded. *)
Theorem exit_computes_times `{Host} (self : TimeTracker) f a k (w : world) :
  distinct_stacks self -> invariant self w ->
  heap w (_entering_times self) <> [] ->
  exists es t0 ts p c,
    heap w (_entering_times self) = es ++ [t0]
    /\ heap w (_total_times self) = ts ++ [p; c]
    /\ let total := sub (clock (clock_reads w)) t0 in
       let w' := snd (_exit self f a k w) in
       heap w' (_entering_times self) = es
       /\ heap w' (_total_times self) = ts ++ [add p total]
       /\ logged w'
          = logged w ++ [{| function_name := f; args := a; kwargs := k;
                            total_time := total;
                            partial_time := sub total c |}]
       /\ forall later f' a' k' es' tp,
            nested later -> es = es' ++ [tp] ->
            let w2 := run self later w' in
            exists m',
              logged (snd (_exit self f' a' k' w2)) = logged w2 ++ [m']
              /\ total_time m' = sub (clock (clock_reads w2)) tp
              /\ partial_time m'
                 = sub (total_time m')
                     (accumulate (add p total)
                        (map total_time
                           (records_at self (S (length es)) later w'))).
Proof.
  intros D I Ne.
  destruct (nonempty_snoc _ Ne) as (es & t0 & Ee).
  unfold invariant in I. rewrite Ee, length_snoc in I.
  destruct (length_SS_snoc _ _ I) as (ts & p & c & Et & Lt).
  exists es, t0, ts, p, c. split; [exact Ee|]. split; [exact Et|].
  destruct (_exit_spec self f a k w es t0 ts p c D Ee Et)
    as (_ & E' & T' & L' & _).
  cbv zeta. split; [exact E'|]. split; [exact T'|]. split; [exact L'|].
  intros later f' a' k' es' tp N ->.
  rewrite length_snoc in Lt.
  destruct (length_S_snoc _ _ Lt) as (ts' & pp & -> & _).
  rewrite <- app_assoc in T'. cbn [app] in T'.
  change (ts' ++ [pp; add p (sub (clock (clock_reads w)) t0)])
    with (ts' ++ [pp] ++ [add p (sub (clock (clock_reads w)) t0)]) in T'.
  rewrite app_assoc in T'.
  destruct (nested_spec self later D N _ _ _ T') as [E2 T2].
  rewrite E' in E2, T2. rewrite <- app_assoc in T2. cbn [app] in T2.
  destruct (_exit_spec self f' a' k' _ _ _ _ _ _ D E2 T2)
    as (_ & _ & _ & L3 & _).
  eexists. split; [exact L3|].
  cbn [total_time partial_time]. rewrite length_snoc. split; reflexivity.
Qed.

Lemma exit_computes_times_witness :
  distinct_stacks tracker0 /\ invariant tracker0 world2
  /\ heap world2 (_entering_times tracker0) <> []
  /\ exists es t0 ts p c,
       heap world2 (_entering_times tracker0) = es ++ [t0]
       /\ heap world2 (_total_times tracker0) = ts ++ [p; c]
       /\ heap (snd (_exit tracker0 "child" [] [] world2)) (_total_times tracker0)
          = ts ++ [add p (sub (clock (clock_reads world2)) t0)].
Proof.
  assert (D : distinct_stacks tracker0) by (vm_compute; discriminate).
  assert (I : invariant tracker0 world2) by (vm_compute; reflexivity).
  assert (N : heap world2 (_entering_times tracker0) <> [])
    by (vm_compute; discriminate).
  split; [exact D|]. split; [exact I|]. split; [exact N|].
  destruct (exit_computes_times tracker0 "child" [] [] world2 D I N)
    as (es & t0 & ts & p & c & Ee & Et & _ & T' & _).
  exists es, t0, ts, p, c. split; [exact Ee|]. split; [exact Et|exact T'].
Defined.

(** C3, as the code has it.  [_exit] on a tracker whose entry stack is empty
    fails with the IndexError of Python's [pop] on the empty list, and the
    world it fails in is the world it was called in: nothing is popped, no
    clock is read, nothing is logged.  Under the length invariant the
    accumulator list then holds the root accumulator alone. *)
Theorem exit_on_empty_stack_raises `{Host} (self : TimeTracker) f a k (w : world) :
  heap w (_entering_times self) = [] ->
  _exit self f a k w = (Raise (IndexError "pop from empty list"), w)
  /\ (invariant self w -> exists root, heap w (_total_times self) = [root]).
Proof.
  intros E. split; [now apply _exit_empty|].
  unfold invariant. rewrite E. cbn [length].
  destruct (heap w (_total_times self)) as [|root [|x l]]; try discriminate.
  intros _. now exists root.
Qed.

Lemma exit_on_empty_stack_raises_witness :
  heap world0 (_entering_times tracker0) = []
  /\ _exit tracker0 "f" [] [] world0
     = (Raise (IndexError "pop from empty list"), world0)
  /\ (invariant tracker0 world0 ->
      exists root, heap world0 (_total_times tracker0) = [root]).
Proof.
  split; [reflexivity|].
  apply (exit_on_empty_stack_raises tracker0 "f" [] [] world0). reflexivity.
Defined.

(** C3 as stated fails: the failure of [_exit] on the empty entry stack of a
    new tracker is an IndexError, not an UnbalancedStackError. *)
Lemma exit_on_empty_stack_not_unbalanced_error :
  heap world0 (_entering_times tracker0) = []
  /\ fst (_exit tracker0 "f" [] [] world0)
     = Raise (IndexError "pop from empty list")
  /\ fst (_exit tracker0 "f" [] [] world0) <> Raise UnbalancedStackError.
Proof.
  split; [reflexivity|]. split; [reflexivity|discriminate].
Qed.

(** C4.  [len(_total_times) == len(_entering_times) + 1] is an invariant.
    A tracker built as isolated, and a shared tracker built on the freshly
    imported module, start with no entry timestamp and the root accumulator
    [0] alone.  [_enter] appends one element to each list; [_exit] on a
    non-empty entry stack removes one element from each; and after every
    operation of every sequence of operations the invariant holds. *)
Theorem length_invariant `{Host} :
  (forall logger d (w : world) self w',
      __init__ logger d true w = (Return self, w') ->
      heap w' (_entering_times self) = []
      /\ heap w' (_total_times self) = [zero]
      /\ distinct_stacks self /\ invariant self w')
  /\ (forall logger d self w',
      __init__ logger d false module_world = (Return self, w') ->
      heap w' (_entering_times self) = []
      /\ heap w' (_total_times self) = [zero]
      /\ distinct_stacks self /\ invariant self w')
  /\ (forall (self : TimeTracker) (w : world),
      distinct_stacks self -> invariant self w ->
      (let w' := snd (_enter self w) in
       length (heap w' (_entering_times self))
       = S (length (heap w (_entering_times self)))
       /\ length (heap w' (_total_times self))
          = S (length (heap w (_total_times self)))
       /\ invariant self w')
      /\ (forall f a k,
          heap w (_entering_times self) <> [] ->
          let w' := snd (_exit self f a k w) in
          S (length (heap w' (_entering_times self)))
          = length (heap w (_entering_times self))
          /\ S (length (heap w' (_total_times self)))
             = length (heap w (_total_times self))
          /\ invariant self w')
      /\ (forall ops, invariant self (run self ops w))).
Proof.
  split; [|split].
  - intros logger d w self w'. rewrite __init___isolated. intros [= <- <-].
    cbn [heap _entering_times _total_times]. unfold distinct_stacks, invariant.
    cbn [heap _entering_times _total_times].
    rewrite upd_same, upd_other, upd_same by lia.
    repeat split; cbn; lia.
  - intros logger d self w'. rewrite __init___shared. intros [= <- <-].
    unfold distinct_stacks, invariant. cbn. repeat split; discriminate.
  - intros self w D I. split; [|split].
    + cbv zeta. destruct (_enter_lengths self w D) as [E T].
      split; [exact E|]. split; [exact T|].
      apply (invariant_step self Enter w D I).
    + intros f a k Ne. cbv zeta.
      assert (Nt : heap w (_total_times self) <> []).
      { intros Z. unfold invariant in I. now rewrite Z in I. }
      destruct (_exit_lengths self f a k w D Ne Nt) as [E T].
      split; [exact E|]. split; [exact T|].
      apply (invariant_step self (Exit f a k) w D I).
    + intros ops. now apply invariant_run.
Qed.

Lemma length_invariant_witness :
  invariant tracker0 world0
  /\ invariant tracker0
       (run tracker0 [Enter; Exit "f" [] []; Exit "g" [] []; Enter] world0)
  /\ invariant tracker_shared module_world.
Proof.
  destruct (@length_invariant ten_ticks) as (Iso & Sh & Ops).
  destruct (Iso print_logger true module_world tracker0 world0 eq_refl)
    as (_ & _ & D & I).
  destruct (Sh print_logger true tracker_shared module_world eq_refl)
    as (_ & _ & _ & IS).
  destruct (Ops tracker0 world0 D I) as (_ & _ & R).
  split; [exact I|]. split; [apply R|exact IS].
Defined.

(** C7.  A properly nested sequence of enter and exit operations, run from
    any state of the tracker, leaves the entry stack (and the accumulator
    list) as deep as it found it; so does a single [_enter] followed by a
    single [_exit]. *)
Theorem nested_calls_restore_depth `{Host} (self : TimeTracker) (w : world) :
  distinct_stacks self ->
  (forall ops, nested ops ->
     length (heap (run self ops w) (_entering_times self))
     = length (heap w (_entering_times self))
     /\ length (heap (run self ops w) (_total_times self))
        = length (heap w (_total_times self)))
  /\ (forall f a k,
        let w' := snd (_exit self f a k (snd (_enter self w))) in
        length (heap w' (_entering_times self))
        = length (heap w (_entering_times self))
        /\ length (heap w' (_total_times self))
           = length (heap w (_total_times self))).
Proof.
  intros D. split.
  - intros ops N. now apply nested_lengths.
  - intros f a k.
    apply (nested_lengths self [Enter; Exit f a k] D
             (nested_call f a k [] [] nested_nil nested_nil) w).
Qed.

Lemma nested_calls_restore_depth_witness :
  distinct_stacks tracker0
  /\ length (heap (run tracker0
                     [Enter; Enter; Exit "g" [] []; Enter; Exit "h" [] [];
                      Exit "f" [] []] world2)
               (_entering_times tracker0))
     = length (heap world2 (_entering_times tracker0)).
Proof.
  assert (D : distinct_stacks tracker0) by (vm_compute; discriminate).
  split; [exact D|].
  destruct (nested_calls_restore_depth tracker0 world2 D) as [Depth _].
  refine (proj1 (Depth _ _)).
  apply (nested_call "f" [] [] ([Enter; Exit "g" [] []; Enter; Exit "h" [] []]) []);
    [|constructor].
  apply (nested_call "g" [] [] [] [Enter; Exit "h" [] []]); [constructor|].
  apply (nested_call "h" [] [] [] []); constructor.
Defined.







(** C2, as the code has it.  When the wrapped callable raises [e], the
    wrapper still runs [_exit] with the name and the arguments of the call,
    in the world the callable left.  When that [_exit] returns (the stacks
    are not empty and the logger's [log] returns), it has handed exactly one
    record for the call to the logger and the wrapper raises [e] itself;
    when [_exit] raises, the wrapper raises the failure of [_exit] instead.
    With a logger that never raises, a failure that unwinds through a chain
    of instrumented calls leaves one record per call, innermost first, and
    reaches the caller unchanged. *)
Theorem wrapper_reraises_failure `{Host} (self : TimeTracker) :
  _do_time_tracking self = true ->
  (forall (function : callable) a k (w : world) e w1,
      call function a k (snd (_enter self w)) = (Raise e, w1) ->
      let x := _exit self (__name__ function) a k w1 in
      let r := call (time_track self function) a k w in
      snd r = snd x
      /\ (fst x = Return tt ->
          fst r = Raise e
          /\ exists m, logged (snd r) = logged w1 ++ [m]
                       /\ function_name m = __name__ function
                       /\ args m = a /\ kwargs m = k)
      /\ (forall e', fst x = Raise e' -> fst r = Raise e'))
  /\ (distinct_stacks self -> quiet (_logger self) ->
      forall (names : list string) a k e (w : world),
        heap w (_total_times self) <> [] ->
        let r := call (call_chain self names (raiser e)) a k w in
        fst r = Raise e
        /\ exists ms, logged (snd r) = logged w ++ ms
                      /\ map function_name ms = rev names).
Proof.
  intros Fl. split.
  - intros function a k w e w1 B. cbv zeta.
    unfold time_track. rewrite Fl. cbn [_time_track call].
    rewrite wrapped_run. cbv zeta. rewrite B. cbn [fst snd].
    split; [reflexivity|]. split.
    + intros R. rewrite R. split; [reflexivity|].
      destruct (_exit_returns_inv self _ a k w1 R) as (m & L & Fn & A & K & _).
      now exists m.
    + intros e' R. now rewrite R.
  - intros D Q names a k e w Nt.
    destruct (call_chain_outcome self names (raiser e) a k (Raise e) Fl D Q
                (fun w => eq_refl) w Nt) as (F & L & _).
    split; [exact F|exact L].
Qed.

Lemma wrapper_reraises_failure_witness :
  _do_time_tracking tracker0 = true
  /\ call (error_fun_caller tracker0) [] [] world0
     = (Raise (Exception "Booo"),
        snd (call (error_fun_caller tracker0) [] [] world0))
  /\ (exists ms,
        logged (snd (call (call_chain tracker0 ["error_fun_caller"; "error_fun"]
                             (raiser (Exception "Booo"))) [] [] world0))
        = logged world0 ++ ms
        /\ map function_name ms = ["error_fun"; "error_fun_caller"]).
Proof.
  destruct (wrapper_reraises_failure tracker0 eq_refl) as [One Chain].
  split; [reflexivity|]. split.
  - change (error_fun_caller tracker0)
      with (time_track tracker0 (error_fun_caller_body tracker0)).
    destruct (call (error_fun_caller_body tracker0) [] []
                (snd (_enter tracker0 world0))) as [r1 w1] eqn:B.
    assert (Er : r1 = Raise (Exception "Booo")).
    { apply (f_equal fst) in B. cbn [fst] in B. rewrite <- B.
      vm_compute. reflexivity. }
    subst r1.
    destruct (One (error_fun_caller_body tracker0) [] [] world0
                (Exception "Booo") w1 B) as (_ & R & _).
    assert (X : fst (_exit tracker0 (__name__ (error_fun_caller_body tracker0))
                       [] [] w1) = Return tt).
    { apply (f_equal snd) in B. cbn [snd] in B. rewrite <- B.
      vm_compute. reflexivity. }
    destruct (R X) as [F _].
    destruct (call (time_track tracker0 (error_fun_caller_body tracker0))
                [] [] world0) as [r2 w2].
    cbn [fst snd] in *. now rewrite F.
  - assert (D : distinct_stacks tracker0) by (vm_compute; discriminate).
    assert (N : heap world0 (_total_times tracker0) <> [])
      by (vm_compute; discriminate).
    apply (Chain D (fun _ _ => eq_refl) ["error_fun_caller"; "error_fun"]
             [] [] (Exception "Booo") world0 N).
Defined.

(** C2 as stated fails: [error_fun] of [examples.py] raises
    [Exception "Booo"], and under a tracker whose logger raises the wrapper
    raises the logger's exception, not that one. *)
Lemma failure_replaced_when_logger_raises :
  fst (call plain_error_fun [] [] (snd (_enter tracker_failing_logger world0)))
  = Raise (Exception "Booo")
  /\ fst (call (time_track tracker_failing_logger plain_error_fun) [] [] world0)
     = Raise (Exception "logger failed")
  /\ Exception "logger failed" <> Exception "Booo".
Proof.
  split; [reflexivity|]. split; [reflexivity|discriminate].
Qed.

(** C5.  A tracker constructed with [do_time_tracking] false gives back the
    very callable it is asked to instrument: calling the result is calling
    the original, with the same returned values, the same failures and the
    same final world; for a function that leaves the world alone, so does
    the result, and no list of the tracker changes. *)
Theorem disabled_tracker_returns_original `{Host}
    logger isolated (w : world) (self : TimeTracker) w' (function : callable) :
  __init__ logger false isolated w = (Return self, w') ->
  time_track self function = function
  /\ (forall a k w1,
        call (time_track self function) a k w1 = call function a k w1)
  /\ (forall a k w1 r,
        call function a k w1 = (r, w1) ->
        call (time_track self function) a k w1 = (r, w1)).
Proof.
  intros I.
  assert (Fl : _do_time_tracking self = false).
  { destruct isolated;
      [rewrite __init___isolated in I|rewrite __init___shared in I];
      now injection I as <- _. }
  assert (E : time_track self function = function).
  { unfold time_track. now rewrite Fl. }
  split; [exact E|]. split.
  - intros a k w1. now rewrite E.
  - intros a k w1 r P. now rewrite E.
Qed.

Lemma disabled_tracker_returns_original_witness :
  __init__ print_logger false true module_world = (Return tracker_off, world0)
  /\ time_track tracker_off plain_dodo = plain_dodo
  /\ call (time_track tracker_off plain_dodo) [5%Z; 3%Z] [] world0
     = (Return 5%Z, world0).
Proof.
  split; [reflexivity|].
  destruct (disabled_tracker_returns_original print_logger true module_world
              tracker_off world0 plain_dodo eq_refl) as (E & _ & P).
  split; [exact E|]. apply P. reflexivity.
Defined.

(** C6, as the code has it.  When the wrapped callable, called with exactly
    the arguments the wrapper received, returns [r], the wrapper runs
    [_exit] with the callable's own name and those arguments.  When that
    [_exit] returns (the stacks are not empty and the logger's [log]
    returns), the wrapper returns [r] and the record handed to the logger
    carries that name and those arguments; when [_exit] raises, the wrapper
    raises that failure instead of returning [r].  The wrapper itself
    carries the name of the callable. *)
Theorem wrapper_returns_result `{Host}
    (self : TimeTracker) (function : callable) a k (w : world) r w1 :
  _do_time_tracking self = true ->
  call function a k (snd (_enter self w)) = (Return r, w1) ->
  let x := _exit self (__name__ function) a k w1 in
  let res := call (time_track self function) a k w in
  __name__ (time_track self function) = __name__ function
  /\ snd res = snd x
  /\ (fst x = Return tt ->
      fst res = Return r
      /\ exists m, logged (snd res) = logged w1 ++ [m]
                   /\ function_name m = __name__ function
                   /\ args m = a /\ kwargs m = k)
  /\ (forall e', fst x = Raise e' -> fst res = Raise e').
Proof.
  intros Fl B. cbv zeta.
  unfold time_track. rewrite Fl. cbn [_time_track call __name__].
  rewrite wrapped_run. cbv zeta. rewrite B. cbn [fst snd].
  split; [reflexivity|]. split; [reflexivity|]. split.
  - intros R. rewrite R. split; [reflexivity|].
    destruct (_exit_returns_inv self _ a k w1 R) as (m & L & Fn & A & K & _).
    now exists m.
  - intros e' R. now rewrite R.
Qed.

Lemma wrapper_returns_result_witness :
  _do_time_tracking tracker0 = true
  /\ fst (call (time_track tracker0 plain_dodo) [5%Z; 3%Z] [] world0) = Return 5%Z
  /\ exists m,
       logged (snd (call (time_track tracker0 plain_dodo) [5%Z; 3%Z] [] world0))
       = logged world0 ++ [m]
       /\ function_name m = "dodo"
       /\ args m = [5%Z; 3%Z] /\ kwargs m = [].
Proof.
  split; [reflexivity|].
  destruct (wrapper_returns_result tracker0 plain_dodo [5%Z; 3%Z] []
              world0 5%Z _ eq_refl eq_refl) as (_ & _ & R & _).
  exact (R eq_refl).
Defined.

(** C6 as stated fails: [dodo] of [examples.py] returns its first argument,
    and under a tracker whose logger raises the wrapper does not return it
    but raises the logger's exception. *)
Lemma result_lost_when_logger_raises :
  fst (call plain_dodo [5%Z; 3%Z] []
         (snd (_enter tracker_failing_logger world0)))
  = Return 5%Z
  /\ fst (call (time_track tracker_failing_logger plain_dodo)
            [5%Z; 3%Z] [] world0)
     = Raise (Exception "logger failed").
Proof.
  split; reflexivity.
Qed.

(** C8.  The lists a tracker works on are chosen by [__init__] and by
    nothing else.  Built as isolated, a tracker gets two new list objects,
    [[]] and [[0]]: they are different from every list that existed
    before, the module-level ones included; its enter and exit operations
    change no list but these two, and the operations of a tracker on older
    lists change neither of them.  Built as shared, a tracker references the
    two module-level lists and allocates nothing, so two shared trackers
    reference the same two lists and an operation leaves the same world
    whichever of them performs it.  On the contents of its two lists, an
    enter or an exit does the same whatever lists they are. *)
Theorem instancing_modes `{Host} :
  (forall logger d (w : world) self w',
      __init__ logger d true w = (Return self, w') ->
      _entering_times self = next_loc w
      /\ _total_times self = S (next_loc w)
      /\ heap w' (_entering_times self) = []
      /\ heap w' (_total_times self) = [zero]
      /\ (forall l, l < next_loc w -> heap w' l = heap w l)
      /\ (forall o w1 l, l < next_loc w ->
            heap (snd (step self o w1)) l = heap w1 l)
      /\ (2 <= next_loc w ->
          forall o w1,
            heap (snd (step self o w1)) _time_tracker_global_entering_times
            = heap w1 _time_tracker_global_entering_times
            /\ heap (snd (step self o w1)) _time_tracker_global_total_times
               = heap w1 _time_tracker_global_total_times)
      /\ (forall (other : TimeTracker) o w1,
            _entering_times other < next_loc w ->
            _total_times other < next_loc w ->
            heap (snd (step other o w1)) (_entering_times self)
            = heap w1 (_entering_times self)
            /\ heap (snd (step other o w1)) (_total_times self)
               = heap w1 (_total_times self)))
  /\ (forall logger d (w : world) self w',
      __init__ logger d false w = (Return self, w') ->
      w' = w
      /\ _entering_times self = _time_tracker_global_entering_times
      /\ _total_times self = _time_tracker_global_total_times)
  /\ (forall logger1 d1 logger2 d2 (wa wb : world) s1 s2 wa' wb',
      __init__ logger1 d1 false wa = (Return s1, wa') ->
      __init__ logger2 d2 false wb = (Return s2, wb') ->
      forall o w, snd (step s1 o w) = snd (step s2 o w))
  /\ (forall (s1 s2 : TimeTracker) o (w1 w2 : world),
      distinct_stacks s1 -> distinct_stacks s2 ->
      _logger s1 = _logger s2 ->
      heap w1 (_entering_times s1) = heap w2 (_entering_times s2) ->
      heap w1 (_total_times s1) = heap w2 (_total_times s2) ->
      clock_reads w1 = clock_reads w2 ->
      logged w1 = logged w2 ->
      fst (step s1 o w1) = fst (step s2 o w2)
      /\ heap (snd (step s1 o w1)) (_entering_times s1)
         = heap (snd (step s2 o w2)) (_entering_times s2)
      /\ heap (snd (step s1 o w1)) (_total_times s1)
         = heap (snd (step s2 o w2)) (_total_times s2)
      /\ logged (snd (step s1 o w1)) = logged (snd (step s2 o w2))).
Proof.
  split; [|split; [|split]].
  - intros logger d w self w'. rewrite __init___isolated. intros [= <- <-].
    cbn [_entering_times _total_times heap].
    split; [reflexivity|]. split; [reflexivity|].
    split; [rewrite upd_other by lia; apply upd_same|].
    split; [apply upd_same|].
    split; [intros l L; rewrite !upd_other by lia; reflexivity|].
    assert (Fr : forall o w1 l, l < next_loc w ->
              heap (snd (step {| _logger := logger; _do_time_tracking := d;
                                 _entering_times := next_loc w;
                                 _total_times := S (next_loc w) |} o w1)) l
              = heap w1 l).
    { intros o w1 l L. apply step_frame; cbn [_entering_times _total_times]; lia. }
    split; [exact Fr|]. split.
    + intros L o w1. unfold _time_tracker_global_entering_times,
        _time_tracker_global_total_times. split; apply Fr; lia.
    + intros other o w1 Le Lt.
      split; apply step_frame; cbn [_entering_times _total_times]; lia.
  - intros logger d w self w'. rewrite __init___shared. intros [= <- <-].
    repeat split.
  - intros logger1 d1 logger2 d2 wa wb s1 s2 wa' wb'.
    rewrite !__init___shared. intros [= <- _] [= <- _] o w.
    now apply step_world_same_lists.
  - intros s1 s2 o w1 w2 D1 D2 Lg E T C L.
    destruct (step_storage_independent s1 s2 o w1 w2 D1 D2 Lg E T C L)
      as (F & E' & T' & _ & L').
    repeat split; assumption.
Qed.

Lemma instancing_modes_witness :
  _entering_times tracker0 = 2 /\ _total_times tracker0 = 3
  /\ _entering_times tracker_shared = 0 /\ _total_times tracker_shared = 1
  /\ heap (snd (step tracker0 Enter world0)) (_total_times tracker_shared)
     = heap world0 (_total_times tracker_shared)
  /\ heap (snd (step tracker0 Enter world0)) (_entering_times tracker0)
     = heap (snd (step tracker_shared Enter world0)) (_entering_times tracker_shared).
Proof.
  destruct (@instancing_modes ten_ticks) as (Iso & Sh & _ & Same).
  destruct (Iso print_logger true module_world tracker0 world0 eq_refl)
    as (E & T & _ & _ & _ & Fr & _).
  destruct (Sh print_logger true module_world tracker_shared module_world eq_refl)
    as (_ & Es & Ts).
  split; [exact E|]. split; [exact T|]. split; [exact Es|]. split; [exact Ts|].
  split.
  - apply Fr. vm_compute. lia.
  - apply (Same tracker0 tracker_shared Enter world0 world0);
      try reflexivity; vm_compute; discriminate.
Defined.

(** ** Instrumented calls as computations *)

Section Calls.
Context `{Host}.
Implicit Types (self : TimeTracker) (w : world) (function : callable).

(** One instrumented call, when the body has left on the stacks what
    [_enter] pushed, with [c'] accumulated under it. *)
Lemma wrapped_call_run self function a k w ts p r w1 c' :
  _do_time_tracking self = true -> distinct_stacks self ->
  heap w (_total_times self) = ts ++ [p] ->
  call function a k (snd (_enter self w)) = (r, w1) ->
  heap w1 (_entering_times self)
  = heap w (_entering_times self) ++ [clock (clock_reads w)] ->
  heap w1 (_total_times self) = ts ++ [p; c'] ->
  let total := sub (clock (clock_reads w1)) (clock (clock_reads w)) in
  let m := {| function_name := __name__ function; args := a; kwargs := k;
              total_time := total; partial_time := sub total c' |} in
  let res := call (time_track self function) a k w in
  fst res = match log (_logger self) m (logged w1) with
            | None => r
            | Some e => Raise e
            end
  /\ heap (snd res) (_entering_times self) = heap w (_entering_times self)
  /\ heap (snd res) (_total_times self) = ts ++ [add p total]
  /\ logged (snd res) = logged w1 ++ [m]
  /\ clock_reads (snd res) = S (clock_reads w1)
  /\ frame self w1 (snd res).
Proof.
  intros Fl D T B E1 T1. cbv zeta.
  unfold time_track. rewrite Fl. cbn [_time_track call].
  rewrite wrapped_run. cbv zeta. rewrite B. cbn [fst snd].
  destruct (_exit_spec self (__name__ function) a k w1 _ _ _ _ _ D E1 T1)
    as (F & E' & T' & L' & C' & _ & Fr).
  rewrite F. split; [now destruct (log _ _ _)|].
  repeat (split; [assumption|]). exact Fr.
Qed.

Lemma restores_stacks_ret self (v : value) : restores_stacks self (ret v).
Proof. intros w ts p T. split; [reflexivity|]. now exists p. Qed.

Lemma restores_stacks_raise self (e : exn) :
  restores_stacks self (fun w => (Raise e, w)).
Proof. intros w ts p T. split; [reflexivity|]. now exists p. Qed.

Lemma restores_stacks_bind self (c : M world value) (k : value -> M world value) :
  restores_stacks self c -> (forall v, restores_stacks self (k v)) ->
  restores_stacks self (bind c k).
Proof.
  intros Rc Rk w ts p T. unfold bind.
  destruct (Rc w ts p T) as (E1 & p1 & T1).
  destruct (c w) as [[v|e] w1]; cbn [snd] in *.
  - destruct (Rk v w1 ts p1 T1) as (E2 & p2 & T2).
    split; [now rewrite E2|now exists p2].
  - split; [exact E1|now exists p1].
Qed.

(** Instrumenting keeps [restores_stacks], whatever the logger does and
    whether the tracker is switched on or off. *)
Lemma restores_stacks_time_track self function a k :
  distinct_stacks self ->
  restores_stacks self (call function a k) ->
  restores_stacks self (call (time_track self function) a k).
Proof.
  intros D R. destruct (_do_time_tracking self) eqn:Fl;
    [|unfold time_track; now rewrite Fl].
  intros w ts p T.
  pose proof (_enter_entering self w D) as E0.
  pose proof (_enter_total self w D) as T0. rewrite T in T0.
  destruct (R (snd (_enter self w)) (ts ++ [p]) zero T0) as (E1 & c' & T1).
  rewrite E0 in E1. rewrite <- app_assoc in T1. cbn [app] in T1.
  destruct (call function a k (snd (_enter self w))) as [r w1] eqn:B.
  cbn [snd] in E1, T1.
  destruct (wrapped_call_run self function a k w ts p r w1 c' Fl D T B E1 T1)
    as (_ & E' & T' & _).
  split; [exact E'|]. eexists. exact T'.
Qed.

End Calls.

(** X1.  An instrumented call hands the stacks back on every path.  If the
    function, called in any world, gives the entry stack back as it found it
    and changes at most the accumulator on top (as a function does whose
    body only computes and makes instrumented calls), then so does the
    decorated function: whether the function returns or raises, whether the
    logger returns or raises, and whether tracking is on or off. *)
Theorem instrumented_call_restores_stacks `{Host}
    (self : TimeTracker) (function : callable) a k (w : world) ts p :
  distinct_stacks self ->
  restores_stacks self (call function a k) ->
  heap w (_total_times self) = ts ++ [p] ->
  let w' := snd (call (time_track self function) a k w) in
  heap w' (_entering_times self) = heap w (_entering_times self)
  /\ (exists p', heap w' (_total_times self) = ts ++ [p'])
  /\ restores_stacks self (call (time_track self function) a k).
Proof.
  intros D R T. cbv zeta.
  pose proof (restores_stacks_time_track self function a k D R) as R1.
  destruct (R1 w ts p T) as (E & P).
  split; [exact E|]. split; [exact P|exact R1].
Qed.

Lemma instrumented_call_restores_stacks_witness :
  distinct_stacks tracker_failing_logger
  /\ heap (snd (call (time_track tracker_failing_logger plain_error_fun) [] [] world2))
       (_entering_times tracker_failing_logger)
     = heap world2 (_entering_times tracker_failing_logger).
Proof.
  assert (D : distinct_stacks tracker_failing_logger)
    by (vm_compute; discriminate).
  split; [exact D|].
  apply (instrumented_call_restores_stacks tracker_failing_logger plain_error_fun
           [] [] world2 [0%Z; 0%Z] 0%Z D).
  - apply restores_stacks_raise.
  - reflexivity.
Defined.

(** X2.  What one instrumented call measures.  With tracking on, when the
    function gives the stacks back as above, the record of the call is
    logged after the records of the calls made inside; its [total_time] runs
    from the clock reading of its own [_enter] to that of its own [_exit],
    its [partial_time] is that total minus what the calls made inside have
    added to its accumulator, and the total is added to the accumulator of
    the caller.  The outcome is that of the function unless the logger
    raises. *)
Theorem instrumented_call_measures `{Host}
    (self : TimeTracker) (function : callable) a k (w : world) ts p :
  _do_time_tracking self = true -> distinct_stacks self ->
  restores_stacks self (call function a k) ->
  heap w (_total_times self) = ts ++ [p] ->
  let inner := call function a k (snd (_enter self w)) in
  let res := call (time_track self function) a k w in
  exists c',
    heap (snd inner) (_total_times self) = ts ++ [p; c']
    /\ let total := sub (clock (clock_reads (snd inner))) (clock (clock_reads w)) in
       let m := {| function_name := __name__ function; args := a; kwargs := k;
                   total_time := total; partial_time := sub total c' |} in
       logged (snd res) = logged (snd inner) ++ [m]
       /\ heap (snd res) (_total_times self) = ts ++ [add p total]
       /\ heap (snd res) (_entering_times self) = heap w (_entering_times self)
       /\ fst res = match log (_logger self) m (logged (snd inner)) with
                    | None => fst inner
                    | Some e => Raise e
                    end.
Proof.
  intros Fl D R T. cbv zeta.
  pose proof (_enter_entering self w D) as E0.
  pose proof (_enter_total self w D) as T0. rewrite T in T0.
  destruct (R (snd (_enter self w)) (ts ++ [p]) zero T0) as (E1 & c' & T1).
  rewrite E0 in E1. rewrite <- app_assoc in T1. cbn [app] in T1.
  destruct (call function a k (snd (_enter self w))) as [r w1] eqn:B.
  cbn [fst snd] in *.
  destruct (wrapped_call_run self function a k w ts p r w1 c' Fl D T B E1 T1)
    as (F & E' & T' & L' & _).
  exists c'. split; [exact T1|]. cbv zeta.
  split; [exact L'|]. split; [exact T'|]. split; [exact E'|exact F].
Qed.

Lemma instrumented_call_measures_witness :
  _do_time_tracking tracker0 = true /\ distinct_stacks tracker0
  /\ restores_stacks tracker0 (call plain_dodo [5%Z; 3%Z] [])
  /\ heap (snd (call (time_track tracker0 plain_dodo) [5%Z; 3%Z] [] world2))
       (_total_times tracker0)
     = [0%Z; 0%Z]
       ++ [@add ten_ticks 0%Z
             (@sub ten_ticks (@clock ten_ticks 3) (@clock ten_ticks 2))].
Proof.
  assert (D : distinct_stacks tracker0) by (vm_compute; discriminate).
  assert (R : restores_stacks tracker0 (call plain_dodo [5%Z; 3%Z] []))
    by apply restores_stacks_ret.
  split; [reflexivity|]. split; [exact D|]. split; [exact R|].
  destruct (instrumented_call_measures tracker0 plain_dodo [5%Z; 3%Z] [] world2
              [0%Z; 0%Z] 0%Z eq_refl D R eq_refl) as (c' & _ & _ & T' & _).
  exact T'.
Defined.

(** ** What a sequence of operations logs *)

Section Logs.
Context `{Host}.
Implicit Types (self : TimeTracker) (w : world) (ops : list op).

Lemma exits_app ops1 ops2 : exits (ops1 ++ ops2) = exits ops1 ++ exits ops2.
Proof.
  induction ops1 as [|[|f a k] ops1 IH]; cbn [app exits]; auto.
  now rewrite IH.
Qed.

Lemma _enter_logged self w : logged (snd (_enter self w)) = logged w.
Proof. now rewrite _enter_run. Qed.

Lemma _enter_clock_reads self w :
  clock_reads (snd (_enter self w)) = S (clock_reads w).
Proof. now rewrite _enter_run. Qed.

(** A properly nested sequence logs one record for each of its [Exit]s, in
    the order of the [Exit]s. *)
Lemma nested_log self ops :
  distinct_stacks self -> nested ops ->
  forall w ts p,
    heap w (_total_times self) = ts ++ [p] ->
    exists ms, logged (run self ops w) = logged w ++ ms
               /\ map call_of ms = exits ops.
Proof.
  intros D N. induction N as [|f a k body rest Nb IHb _ IHr]; intros w ts p T.
  - exists []. now rewrite app_nil_r.
  - change (Enter :: body ++ Exit f a k :: rest)
      with ([Enter] ++ body ++ [Exit f a k] ++ rest).
    rewrite !run_app, !exits_app. cbn [run step exits app].
    set (w1 := snd (_enter self w)).
    set (w2 := run self body w1).
    set (w3 := snd (_exit self f a k w2)).
    pose proof (_enter_entering self w D) as E1. fold w1 in E1.
    pose proof (_enter_total self w D) as T1. fold w1 in T1. rewrite T in T1.
    pose proof (_enter_logged self w) as L1. fold w1 in L1.
    destruct (IHb w1 _ _ T1) as (ms1 & L2 & X2). fold w2 in L2.
    destruct (nested_spec self body D Nb w1 _ _ T1) as [E2 T2].
    fold w2 in E2, T2. rewrite E1 in E2.
    rewrite <- app_assoc in T2. cbn [app] in T2.
    destruct (_exit_spec self f a k w2 _ _ _ _ _ D E2 T2)
      as (_ & _ & T3 & L3 & _).
    fold w3 in T3, L3.
    destruct (IHr w3 ts _ T3) as (ms3 & L4 & X4).
    eexists (ms1 ++ _ :: ms3). split.
    + rewrite L4, L3, L2, L1, <- !app_assoc. reflexivity.
    + rewrite map_app. cbn [map]. now rewrite X2, X4.
Qed.

End Logs.

(** X3.  A properly nested sequence of enter and exit operations, on a
    tracker that holds at least the root accumulator, hands the logger
    exactly one record for each exit, in the order of the exits, each with
    the name and the arguments given to that exit; an enter logs nothing. *)
Theorem nested_calls_log_one_record_each `{Host}
    (self : TimeTracker) (ops : list op) (w : world) :
  distinct_stacks self -> nested ops ->
  heap w (_total_times self) <> [] ->
  logged (run self ops w) = logged w ++ emitted w (run self ops w)
  /\ map call_of (emitted w (run self ops w)) = exits ops
  /\ logged (snd (_enter self w)) = logged w.
Proof.
  intros D N Nt.
  destruct (nonempty_snoc _ Nt) as (ts & p & T).
  destruct (nested_log self ops D N w ts p T) as (ms & L & X).
  rewrite (emitted_snoc _ _ _ L).
  split; [exact L|]. split; [exact X|apply _enter_logged].
Qed.

Lemma nested_calls_log_one_record_each_witness :
  distinct_stacks tracker0
  /\ heap world0 (_total_times tracker0) <> []
  /\ map call_of (emitted world0 (run tracker0 calls_f_g world0))
     = exits calls_f_g.
Proof.
  assert (D : distinct_stacks tracker0) by (vm_compute; discriminate).
  assert (N : heap world0 (_total_times tracker0) <> [])
    by (vm_compute; discriminate).
  split; [exact D|]. split; [exact N|].
  apply (nested_calls_log_one_record_each tracker0 calls_f_g world0 D);
    [|exact N].
  apply (@nested_call ten_ticks "f" [] [] [Enter; @Exit ten_ticks "g" [7%Z] []] []);
    [|constructor].
  apply (@nested_call ten_ticks "g" [7%Z] [] [] []); constructor.
Defined.

(** ** Exact arithmetic: partial times add up *)

Section ExactArithmetic.
Context `{Host}.
Hypothesis add_assoc : forall x y z, add (add x y) z = add x (add y z).
Hypothesis add_zero_l : forall x, add zero x = x.
Hypothesis add_zero_r : forall x, add x zero = x.
Hypothesis add_sub : forall c t, add c (sub t c) = t.
Implicit Types (self : TimeTracker) (w : world) (ops : list op).




End ExactArithmetic.



(** ** Integer ticks and a clock that does not go backwards *)

Section TimeLine.
Variable clk : nat -> Z.
Hypothesis clk_monotone : forall i j, i <= j -> (clk i <= clk j)%Z.
Implicit Types (self : @TimeTracker (ZHost clk)) (w : @world (ZHost clk))
  (ops : list (@op (ZHost clk))).

Lemma timeline_weaken (B B' : Z -> Prop) (es cs : list Z) :
  (forall x, B x -> B' x) -> timeline B es cs -> timeline B' es cs.
Proof.
  intros I. destruct es as [|t es], cs as [|c cs]; cbn; auto.
  intros (C & Bt & R). auto.
Qed.

(** A tracker with no open call is on a time line. *)
Lemma timeline_ok_idle self w root :
  heap w (_entering_times self) = [] ->
  heap w (_total_times self) = [root] ->
  timeline_ok clk self w.
Proof. unfold timeline_ok. intros -> ->. exact I. Qed.

(** One operation keeps the time line, and the record it logs, if any, has
    [0 <= partial_time <= total_time]. *)
Lemma timeline_step self (o : @op (ZHost clk)) w :
  distinct_stacks self -> timeline_ok clk self w ->
  timeline_ok clk self (snd (step self o w))
  /\ exists ms, logged (snd (step self o w)) = logged w ++ ms
                /\ Forall (ordered_times clk) ms.
Proof.
  unfold timeline_ok. intros D K. destruct o as [|f a k]; cbn [step].
  - rewrite _enter_entering, _enter_total, _enter_clock_reads, _enter_logged
      by exact D.
    rewrite !rev_unit. cbn [timeline zero clock ZHost].
    split; [|exists []; now rewrite app_nil_r].
    split; [lia|]. split.
    + intros j Lj. rewrite Z.add_0_r. apply clk_monotone. lia.
    + revert K. apply timeline_weaken. intros x Bx. apply Bx. lia.
  - destruct (snoc_cases (heap w (_entering_times self))) as [Z0|(es & t0 & Ee)].
    { rewrite _exit_empty by exact Z0. cbn [snd].
      split; [exact K|]. exists []. now rewrite app_nil_r. }
    rewrite Ee, rev_unit in K.
    destruct (rev (heap w (_total_times self))) as [|c [|p cs]] eqn:Rt;
      cbn [timeline] in K; try tauto.
    { destruct K as (_ & _ & K). now destruct (rev es). }
    destruct K as (C0 & Bc & K).
    assert (Et : heap w (_total_times self) = rev cs ++ [p; c]).
    { rewrite <- (rev_involutive (heap w (_total_times self))), Rt.
      cbn [rev]. now rewrite <- app_assoc. }
    destruct (_exit_spec self f a k w es t0 (rev cs) p c D Ee Et)
      as (_ & E' & T' & L' & C' & _).
    rewrite E', T', C', rev_unit, rev_involutive.
    cbn [add sub clock ZHost] in *.
    assert (Bnow : (t0 + c <= clk (clock_reads w))%Z) by (apply Bc; lia).
    split.
    + destruct (rev es) as [|tp es'].
      * destruct cs; [exact I|contradiction].
      * cbn [timeline] in K |- *. destruct K as (P0 & Bp & K).
        split; [lia|]. split; [|exact K].
        intros j Lj.
        assert (clk (clock_reads w) <= clk j)%Z by (apply clk_monotone; lia).
        lia.
    + eexists. split; [exact L'|].
      constructor; [|constructor]. unfold ordered_times.
      cbn [partial_time total_time]. lia.
Qed.

Lemma timeline_run self ops :
  distinct_stacks self ->
  forall w, timeline_ok clk self w ->
    timeline_ok clk self (run self ops w)
    /\ exists ms, logged (run self ops w) = logged w ++ ms
                  /\ Forall (ordered_times clk) ms.
Proof.
  intros D. induction ops as [|o ops IH]; intros w K; cbn [run].
  - split; [exact K|]. exists []. now rewrite app_nil_r.
  - destruct (timeline_step self o w D K) as (K1 & ms1 & L1 & F1).
    destruct (IH _ K1) as (K2 & ms2 & L2 & F2).
    split; [exact K2|]. exists (ms1 ++ ms2).
    split; [now rewrite L2, L1, app_assoc|]. apply Forall_app. now split.
Qed.

End TimeLine.

(** X5.  With integer ticks and a clock that does not go backwards, every
    record that a tracker logs has [0 <= partial_time <= total_time],
    whatever sequence of operations is run, failing ones included, from a
    state with no open call (or, more generally, from a state whose stacks
    form a time line); the nested calls never account for more time than
    the call that made them. *)
Theorem records_have_ordered_times (clk : nat -> Z)
    (self : @TimeTracker (ZHost clk)) (ops : list (@op (ZHost clk)))
    (w : @world (ZHost clk)) :
  (forall i j, i <= j -> (clk i <= clk j)%Z) ->
  distinct_stacks self ->
  timeline_ok clk self w ->
  Forall (ordered_times clk) (emitted w (run self ops w))
  /\ timeline_ok clk self (run self ops w)
  /\ (forall w0 root,
        heap w0 (_entering_times self) = [] ->
        heap w0 (_total_times self) = [root] ->
        timeline_ok clk self w0).
Proof.
  intros Mono D K.
  destruct (timeline_run clk Mono self ops D w K) as (K' & ms & L & F).
  rewrite (emitted_snoc _ _ _ L).
  split; [exact F|]. split; [exact K'|].
  intros w0 root. apply timeline_ok_idle.
Qed.

Lemma records_have_ordered_times_witness :
  distinct_stacks tracker0
  /\ timeline_ok (fun n => (10 * Z.of_nat n)%Z) tracker0 world0
  /\ Forall (ordered_times (fun n => (10 * Z.of_nat n)%Z))
       (emitted world0 (run tracker0 calls_f_g_h world0)).
Proof.
  assert (D : distinct_stacks tracker0) by (vm_compute; discriminate).
  assert (K : timeline_ok (fun n => (10 * Z.of_nat n)%Z) tracker0 world0)
    by exact I.
  split; [exact D|]. split; [exact K|].
  assert (Mono : forall i j, i <= j -> (10 * Z.of_nat i <= 10 * Z.of_nat j)%Z)
    by (intros; lia).
  exact (proj1 (records_have_ordered_times (fun n => (10 * Z.of_nat n)%Z)
                  tracker0 calls_f_g_h world0 Mono D K)).
Defined.

(** ** Calls of functions written with [def] *)

Section Binding.
Context `{Host}.

(** A call with as many positional arguments as the function has
    parameters, and no keyword, runs the body on them. *)
Lemma call_py_def_positional name params (body : list value -> M world value) a :
  length a = length params ->
  call (py_def name params body) a [] = body a.
Proof.
  intros L. cbn [py_def call]. unfold bind_arguments.
  rewrite L, Nat.ltb_irrefl, skipn_all. cbn [forallb keywords].
  now rewrite app_nil_r.
Qed.

(** A call whose arguments do not fit raises TypeError and runs nothing. *)
Lemma call_py_def_type_error name params (body : list value -> M world value) a k w :
  bind_arguments params a k = None ->
  call (py_def name params body) a k w = (Raise TypeError, w).
Proof. intros B. cbn [py_def call]. now rewrite B. Qed.

(** A function without parameters accepts no argument at all. *)
Lemma bind_arguments_no_parameter (a : list value) (k : list (string * value)) :
  a <> [] \/ k <> [] -> bind_arguments [] a k = None.
Proof.
  unfold bind_arguments. destruct a as [|x a]; [|reflexivity].
  destruct k as [|kv k]; [intros [N|N]; congruence|reflexivity].
Qed.

End Binding.

(** ** The recursion of [fibo] *)

Section Fibo.
Variable clk : nat -> Z.
Variable tracker : @TimeTracker (ZHost clk).
Hypothesis tracking : _do_time_tracking tracker = true.
Hypothesis distinct : distinct_stacks tracker.
Hypothesis quiet_logger : quiet (_logger tracker).

Lemma fib_step (k : nat) : fib (S (S k)) = (fib (S k) + fib k)%Z.
Proof. reflexivity. Qed.

Lemma fib_positive (n : nat) : (1 <= fib n)%Z.
Proof.
  assert (P : (1 <= fib n)%Z /\ (1 <= fib (S n))%Z).
  { induction n as [|n [IH1 IH2]]; [cbn; lia|].
    split; [exact IH2|]. rewrite fib_step. lia. }
  apply P.
Qed.

(** [fibo(n)] in a world where the tracker holds the accumulators
    [ts ++ [p]]: the value, the stacks and the records. *)
Lemma fibo_run (depth : nat) :
  forall (n : nat) (w : @world (ZHost clk)) ts p,
    n <= S depth ->
    heap w (_total_times tracker) = ts ++ [p] ->
    let res := call (fibo clk tracker depth) [Z.of_nat n] [] w in
    fst res = Return (fib n)
    /\ heap (snd res) (_entering_times tracker) = heap w (_entering_times tracker)
    /\ (exists p', heap (snd res) (_total_times tracker) = ts ++ [p'])
    /\ exists ms, logged (snd res) = logged w ++ ms
                  /\ Z.of_nat (length ms) = (2 * fib n - 1)%Z
                  /\ Forall (fun m => function_name m = "fibo") ms.
Proof.
  induction depth as [|d IH]; intros n w ts p Ln T; cbv zeta.
  all: remember (Z.of_nat n) as z eqn:Hz.
  all: cbn [fibo].
  all: match goal with
       | |- context [time_track tracker ?b] => set (body := b)
       end.
  all: pose proof (_enter_entering tracker w distinct) as E0.
  all: pose proof (_enter_total tracker w distinct) as T0; rewrite T in T0.
  all: pose proof (_enter_logged tracker w) as L0.
  all: set (w0 := snd (_enter tracker w)) in *.
  all: assert (Body : exists w1 c' ms,
           call body [z] [] w0 = (Return (fib n), w1)
           /\ heap w1 (_entering_times tracker) = heap w0 (_entering_times tracker)
           /\ heap w1 (_total_times tracker) = (ts ++ [p]) ++ [c']
           /\ logged w1 = logged w0 ++ ms
           /\ Z.of_nat (length ms) = (2 * fib n - 2)%Z
           /\ Forall (fun m => function_name m = "fibo") ms).
  1, 3: destruct n as [|[|k]]; try lia.
  1, 2, 3, 4:
    subst z body; exists w0, 0%Z, [];
    repeat split; [exact T0|now rewrite app_nil_r|constructor].
  - (* two recursive calls *)
    subst body. rewrite call_py_def_positional by reflexivity. cbn [nth].
    replace ((z =? 0)%Z || (z =? 1)%Z) with false
      by (symmetry; apply orb_false_intro; apply Z.eqb_neq; lia).
    replace (z - 1)%Z with (Z.of_nat (S k)) by lia.
    replace (z - 2)%Z with (Z.of_nat k) by lia.
    unfold bind.
    destruct (IH (S k) w0 _ _ ltac:(lia) T0) as (F1 & E1 & (p1 & T1) & ms1 & L1 & N1 & A1).
    destruct (call (fibo clk tracker d) [Z.of_nat (S k)] [] w0) as [r1 w1].
    cbn [fst snd] in *. subst r1.
    destruct (IH k w1 _ _ ltac:(lia) T1) as (F2 & E2 & (p2 & T2) & ms2 & L2 & N2 & A2).
    destruct (call (fibo clk tracker d) [Z.of_nat k] [] w1) as [r2 w2].
    cbn [fst snd] in *. subst r2.
    exists w2, p2, (ms1 ++ ms2). rewrite fib_step.
    split; [reflexivity|]. split; [now rewrite E2|]. split; [exact T2|].
    split; [now rewrite L2, L1, app_assoc|].
    split; [rewrite length_app; lia|]. apply Forall_app. now split.
  - destruct Body as (w1 & c' & ms & B & E1 & T1 & L1 & N1 & A1).
    rewrite E0 in E1. rewrite <- app_assoc in T1. cbn [app] in T1.
    destruct (wrapped_call_run tracker body [z] [] w ts p _ w1 c'
                tracking distinct T B E1 T1) as (F & E' & T' & L' & _).
    rewrite quiet_logger in F.
    split; [exact F|]. split; [exact E'|]. split; [eexists; exact T'|].
    eexists. split; [rewrite L', L1, L0, <- app_assoc; reflexivity|].
    split; [rewrite length_app; cbn [length]; lia|].
    apply Forall_app. split; [exact A1|]. constructor; [reflexivity|constructor].
  - destruct Body as (w1 & c' & ms & B & E1 & T1 & L1 & N1 & A1).
    rewrite E0 in E1. rewrite <- app_assoc in T1. cbn [app] in T1.
    destruct (wrapped_call_run tracker body [z] [] w ts p _ w1 c'
                tracking distinct T B E1 T1) as (F & E' & T' & L' & _).
    rewrite quiet_logger in F.
    split; [exact F|]. split; [exact E'|]. split; [eexists; exact T'|].
    eexists. split; [rewrite L', L1, L0, <- app_assoc; reflexivity|].
    split; [rewrite length_app; cbn [length]; lia|].
    apply Forall_app. split; [exact A1|]. constructor; [reflexivity|constructor].
Qed.

End Fibo.

(** X6.  [fibo] of [examples.py], on a tracker that is switched on with a
    logger that does not raise: for every [n >= 0] within the recursion depth
    allowed, [fibo(n)] returns the [n]-th number of the sequence 1, 1, 2, 3,
    5, 8, ..., logs [2 * fibo(n) - 1] records, one for each call of the
    recursion tree (15 for [fibo(5)]), all named [fibo], and hands the
    stacks back as deep as it found them. *)
Theorem fibo_logs_one_record_per_call (clk : nat -> Z)
    (tracker : @TimeTracker (ZHost clk)) (depth n : nat) (w : @world (ZHost clk)) :
  _do_time_tracking tracker = true ->
  distinct_stacks tracker ->
  quiet (_logger tracker) ->
  n <= S depth ->
  heap w (_total_times tracker) <> [] ->
  let res := call (fibo clk tracker depth) [Z.of_nat n] [] w in
  fst res = Return (fib n)
  /\ logged (snd res) = logged w ++ emitted w (snd res)
  /\ Z.of_nat (length (emitted w (snd res))) = (2 * fib n - 1)%Z
  /\ Forall (fun m => function_name m = "fibo") (emitted w (snd res))
  /\ heap (snd res) (_entering_times tracker) = heap w (_entering_times tracker)
  /\ length (heap (snd res) (_total_times tracker))
     = length (heap w (_total_times tracker)).
Proof.
  intros Fl D Q Ln Nt. cbv zeta.
  destruct (nonempty_snoc _ Nt) as (ts & p & T).
  destruct (fibo_run clk tracker Fl D Q depth n w ts p Ln T)
    as (F & E & (p' & T') & ms & L & N & A).
  rewrite (emitted_snoc _ _ _ L).
  split; [exact F|]. split; [exact L|]. split; [exact N|]. split; [exact A|].
  split; [exact E|]. now rewrite T', T, !length_snoc.
Qed.

Lemma fibo_logs_one_record_per_call_witness :
  fst (call (fibo (fun n => (10 * Z.of_nat n)%Z) tracker0 4) [5%Z] [] world0)
  = Return 8%Z
  /\ Z.of_nat
       (length
          (emitted world0
             (snd (call (fibo (fun n => (10 * Z.of_nat n)%Z) tracker0 4)
                     [5%Z] [] world0))))
     = 15%Z.
Proof.
  assert (D : distinct_stacks tracker0) by (vm_compute; discriminate).
  assert (N : heap world0 (_total_times tracker0) <> [])
    by (vm_compute; discriminate).
  destruct (fibo_logs_one_record_per_call (fun n => (10 * Z.of_nat n)%Z)
              tracker0 4 5 world0 eq_refl D (fun _ _ => eq_refl)
              ltac:(lia) N) as (F & _ & C & _).
  split; [exact F|exact C].
Defined.

(** ** The functions of [examples.py] *)

Section Examples.
Context `{Host}.
Variable tracker : TimeTracker.
Hypothesis tracking : _do_time_tracking tracker = true.
Hypothesis distinct : distinct_stacks tracker.
Hypothesis quiet_logger : quiet (_logger tracker).

(** An instrumented function whose body has outcome [out] and leaves the
    world alone. *)
Lemma leaf_call_run (function : callable) a k (out : result value) (w : world) ts p :
  (forall w', call function a k w' = (out, w')) ->
  heap w (_total_times tracker) = ts ++ [p] ->
  let total := sub (clock (S (clock_reads w))) (clock (clock_reads w)) in
  let res := call (time_track tracker function) a k w in
  fst res = out
  /\ heap (snd res) (_entering_times tracker) = heap w (_entering_times tracker)
  /\ heap (snd res) (_total_times tracker) = ts ++ [add p total]
  /\ logged (snd res)
     = logged w ++ [{| function_name := __name__ function; args := a; kwargs := k;
                       total_time := total; partial_time := sub total zero |}]
  /\ clock_reads (snd res) = S (S (clock_reads w)).
Proof.
  intros B T. cbv zeta.
  pose proof (_enter_entering tracker w distinct) as E0.
  pose proof (_enter_total tracker w distinct) as T0. rewrite T in T0.
  rewrite <- app_assoc in T0. cbn [app] in T0.
  destruct (wrapped_call_run tracker function a k w ts p out _ zero
              tracking distinct T (B _) E0 T0) as (F & E' & T' & L' & C' & _).
  rewrite quiet_logger in F.
  rewrite _enter_clock_reads in T', L', C'. rewrite _enter_logged in L'.
  repeat (split; [assumption|]). exact C'.
Qed.

End Examples.

(** X7.  [boo] and [dodo] of [examples.py], on a tracker that is switched on
    with a logger that does not raise: [boo(x, y)] returns [x + y] and logs
    the records of the two calls of [dodo], then its own.  Each [dodo] has
    [partial_time = total_time - 0]; the [partial_time] of [boo] is its
    total time minus the sum of the total times of both calls of [dodo], and
    its total time is what the caller's accumulator receives. *)
Theorem boo_partial_time_excludes_both_children `{Host}
    (tracker : TimeTracker) (default : value) (plus : value -> value -> value)
    (d1 d2 x y : value) (w : world) ts p :
  _do_time_tracking tracker = true ->
  distinct_stacks tracker ->
  quiet (_logger tracker) ->
  heap w (_total_times tracker) = ts ++ [p] ->
  let r := clock_reads w in
  let t1 := sub (clock (2 + r)) (clock (1 + r)) in
  let t2 := sub (clock (4 + r)) (clock (3 + r)) in
  let t := sub (clock (5 + r)) (clock r) in
  let res := call (boo default plus d1 d2 tracker) [x; y] [] w in
  fst res = Return (plus x y)
  /\ logged (snd res)
     = logged w
       ++ [{| function_name := "dodo"; args := [x; d1]; kwargs := [];
              total_time := t1; partial_time := sub t1 zero |};
           {| function_name := "dodo"; args := [y; d2]; kwargs := [];
              total_time := t2; partial_time := sub t2 zero |};
           {| function_name := "boo"; args := [x; y]; kwargs := [];
              total_time := t;
              partial_time := sub t (add (add zero t1) t2) |}]
  /\ heap (snd res) (_total_times tracker) = ts ++ [add p t]
  /\ heap (snd res) (_entering_times tracker) = heap w (_entering_times tracker).
Proof.
  intros Fl D Q T. cbv zeta. unfold boo.
  match goal with
  | |- context [time_track tracker ?b] => set (body := b)
  end.
  pose proof (_enter_entering tracker w D) as E0.
  pose proof (_enter_total tracker w D) as T0. rewrite T in T0.
  pose proof (_enter_logged tracker w) as L0.
  pose proof (_enter_clock_reads tracker w) as C0.
  set (w0 := snd (_enter tracker w)) in *.
  destruct (leaf_call_run tracker Fl D Q (dodo_body default) [x; d1] []
              (Return x) w0 _ _ (fun _ => eq_refl) T0)
    as (F1 & E1 & T1 & L1 & C1).
  fold (dodo default tracker) in F1, E1, T1, L1, C1.
  destruct (call (dodo default tracker) [x; d1] [] w0) as [r1 w1] eqn:B1.
  cbn [fst snd] in *. subst r1.
  destruct (leaf_call_run tracker Fl D Q (dodo_body default) [y; d2] []
              (Return y) w1 _ _ (fun _ => eq_refl) T1)
    as (F2 & E2 & T2 & L2 & C2).
  fold (dodo default tracker) in F2, E2, T2, L2, C2.
  destruct (call (dodo default tracker) [y; d2] [] w1) as [r2 w2] eqn:B2.
  cbn [fst snd] in *. subst r2.
  assert (B : call body [x; y] [] w0 = (Return (plus x y), w2)).
  { subst body. unfold boo_body.
    rewrite call_py_def_positional by reflexivity. cbn [nth].
    unfold bind. now rewrite B1, B2. }
  rewrite E1, E0 in E2. rewrite <- app_assoc in T2. cbn [app] in T2.
  destruct (wrapped_call_run tracker body [x; y] [] w ts p _ w2 _
              Fl D T B E2 T2) as (F & E' & T' & L' & _).
  rewrite Q in F. rewrite C2, C1, C0 in T', L'.
  rewrite L2, L1, L0, C1, C0 in L'. rewrite <- !app_assoc in L'.
  split; [exact F|]. split; [exact L'|]. split; [exact T'|exact E'].
Qed.

Lemma boo_partial_time_excludes_both_children_witness :
  fst (call (@boo ten_ticks 0%Z Z.add 3%Z 4%Z tracker0) [1%Z; 2%Z] [] world0)
  = Return 3%Z
  /\ heap (snd (call (@boo ten_ticks 0%Z Z.add 3%Z 4%Z tracker0)
                  [1%Z; 2%Z] [] world0)) (_total_times tracker0)
     = [] ++ [50%Z].
Proof.
  destruct (@boo_partial_time_excludes_both_children ten_ticks tracker0
              0%Z Z.add 3%Z 4%Z 1%Z 2%Z world0 [] 0%Z eq_refl
              ltac:(vm_compute; discriminate) (fun _ _ => eq_refl) eq_refl)
    as (F & _ & T & _).
  split; [exact F|exact T].
Defined.

(** X8.  [error_fun] and [error_fun_caller] of [examples.py], on a tracker
    that is switched on with a logger that does not raise.
    [error_fun_caller()], called as it is defined, without arguments, raises
    the [Exception('Booo')] of [error_fun] after two records have been
    logged, that of [error_fun] and then its own; its [partial_time] is its
    total time minus the total time of the failed call, and the stacks are
    back as they were but for the caller's accumulator, which has received
    the total time.  Called with any positional or keyword argument, it
    raises TypeError before [error_fun] is called: one record is logged, its
    own, with the arguments given and [partial_time = total_time - 0]. *)
Theorem error_fun_caller_logs_both_and_raises `{Host}
    (tracker : TimeTracker) (w : world) ts p :
  _do_time_tracking tracker = true ->
  distinct_stacks tracker ->
  quiet (_logger tracker) ->
  heap w (_total_times tracker) = ts ++ [p] ->
  let r := clock_reads w in
  let t1 := sub (clock (2 + r)) (clock (1 + r)) in
  let t := sub (clock (3 + r)) (clock r) in
  let res := call (error_fun_caller tracker) [] [] w in
  (fst res = Raise (Exception "Booo")
   /\ logged (snd res)
      = logged w
        ++ [{| function_name := "error_fun"; args := []; kwargs := [];
               total_time := t1; partial_time := sub t1 zero |};
            {| function_name := "error_fun_caller"; args := []; kwargs := [];
               total_time := t; partial_time := sub t (add zero t1) |}]
   /\ heap (snd res) (_total_times tracker) = ts ++ [add p t]
   /\ heap (snd res) (_entering_times tracker) = heap w (_entering_times tracker))
  /\ (forall a k,
        a <> [] \/ k <> [] ->
        let t0 := sub (clock (1 + r)) (clock r) in
        let res' := call (error_fun_caller tracker) a k w in
        fst res' = Raise TypeError
        /\ logged (snd res')
           = logged w
             ++ [{| function_name := "error_fun_caller"; args := a; kwargs := k;
                    total_time := t0; partial_time := sub t0 zero |}]
        /\ heap (snd res') (_total_times tracker) = ts ++ [add p t0]
        /\ heap (snd res') (_entering_times tracker)
           = heap w (_entering_times tracker)).
Proof.
  intros Fl D Q T. cbv zeta. unfold error_fun_caller. split.
  - set (body := error_fun_caller_body tracker).
    pose proof (_enter_entering tracker w D) as E0.
    pose proof (_enter_total tracker w D) as T0. rewrite T in T0.
    pose proof (_enter_logged tracker w) as L0.
    pose proof (_enter_clock_reads tracker w) as C0.
    set (w0 := snd (_enter tracker w)) in *.
    destruct (leaf_call_run tracker Fl D Q error_fun_body [] []
                (Raise (Exception "Booo")) w0 _ _ (fun _ => eq_refl) T0)
      as (F1 & E1 & T1 & L1 & C1).
    fold (error_fun tracker) in F1, E1, T1, L1, C1.
    destruct (call (error_fun tracker) [] [] w0) as [r1 w1] eqn:B1.
    cbn [fst snd] in *. subst r1.
    assert (B : call body [] [] w0 = (Raise (Exception "Booo"), w1)).
    { subst body. unfold error_fun_caller_body.
      rewrite call_py_def_positional by reflexivity. exact B1. }
    rewrite E0 in E1. rewrite <- app_assoc in T1. cbn [app] in T1.
    destruct (wrapped_call_run tracker body [] [] w ts p _ w1 _
                Fl D T B E1 T1) as (F & E' & T' & L' & _).
    rewrite Q in F. rewrite C1, C0 in T', L'.
    rewrite L1, L0, C0 in L'. rewrite <- !app_assoc in L'.
    split; [exact F|]. split; [exact L'|]. split; [exact T'|exact E'].
  - intros a k Nak.
    destruct (leaf_call_run tracker Fl D Q (error_fun_caller_body tracker) a k
                (Raise TypeError) w ts p) as (F & E' & T' & L' & _);
      [|exact T|].
    { intros w'. apply call_py_def_type_error.
      now apply bind_arguments_no_parameter. }
    split; [exact F|]. split; [exact L'|]. split; [exact T'|exact E'].
Qed.

Lemma error_fun_caller_logs_both_and_raises_witness :
  fst (call (error_fun_caller tracker0) [] [] world0) = Raise (Exception "Booo")
  /\ heap (snd (call (error_fun_caller tracker0) [] [] world0))
       (_total_times tracker0)
     = [] ++ [30%Z].
Proof.
  destruct (@error_fun_caller_logs_both_and_raises ten_ticks tracker0
              world0 [] 0%Z eq_refl ltac:(vm_compute; discriminate)
              (fun _ _ => eq_refl) eq_refl)
    as ((F & _ & T & _) & _).
  split; [exact F|exact T].
Defined.

(** ** Calls instrumented through another tracker *)

Section TwoTrackers.
Context `{Host}.
Implicit Types (self other : TimeTracker) (w : world) (function : callable).

(** An instrumented call changes no list but the two of its tracker and
    those that the function changes. *)
Lemma untouched_time_track other function a k (l : nat) :
  l <> _entering_times other -> l <> _total_times other ->
  untouched l (call function a k) ->
  untouched l (call (time_track other function) a k).
Proof.
  intros Le Lt U. unfold time_track.
  destruct (_do_time_tracking other); [|exact U].
  intros w. cbn [_time_track call]. rewrite wrapped_run. cbv zeta. cbn [snd].
  pose proof (step_frame other (Exit (__name__ function) a k)
                (snd (call function a k (snd (_enter other w)))) l Le Lt) as X.
  cbn [step] in X. rewrite X, U. apply (_enter_frame other w l Le Lt).
Qed.

End TwoTrackers.

(** X10.  Trackers on different lists do not see each other's calls.  When
    a function instrumented by [self] does nothing but call a function
    instrumented by [other], a tracker whose two lists are not those of
    [self], and that function leaves the lists of [self] alone, the record
    that [self] logs has [partial_time = total_time - 0]: the time of the
    call measured by the other tracker is not taken off, and the lists of
    [self] come back with the total added to the caller's accumulator. *)
Theorem other_tracker_calls_are_not_subtracted `{Host}
    (self other : TimeTracker) (function : callable) (name : string)
    a k a' k' (w : world) ts p :
  _do_time_tracking self = true -> distinct_stacks self ->
  _entering_times self <> _entering_times other ->
  _entering_times self <> _total_times other ->
  _total_times self <> _entering_times other ->
  _total_times self <> _total_times other ->
  untouched (_entering_times self) (call function a' k') ->
  untouched (_total_times self) (call function a' k') ->
  heap w (_total_times self) = ts ++ [p] ->
  let outer := {| __name__ := name;
                  call := fun _ _ => call (time_track other function) a' k' |} in
  let inner := call outer a k (snd (_enter self w)) in
  let res := call (time_track self outer) a k w in
  let total := sub (clock (clock_reads (snd inner))) (clock (clock_reads w)) in
  logged (snd res)
  = logged (snd inner)
    ++ [{| function_name := name; args := a; kwargs := k;
           total_time := total; partial_time := sub total zero |}]
  /\ heap (snd res) (_total_times self) = ts ++ [add p total]
  /\ heap (snd res) (_entering_times self) = heap w (_entering_times self).
Proof.
  intros Fl D Ee Et Te Tt Ue Ut T. cbv zeta.
  set (outer := {| __name__ := name;
                   call := fun _ _ => call (time_track other function) a' k' |}).
  pose proof (_enter_entering self w D) as E0.
  pose proof (_enter_total self w D) as T0. rewrite T in T0.
  rewrite <- app_assoc in T0. cbn [app] in T0.
  pose proof (untouched_time_track other function a' k' _ Ee Et Ue
                (snd (_enter self w))) as E1.
  pose proof (untouched_time_track other function a' k' _ Te Tt Ut
                (snd (_enter self w))) as T1.
  rewrite E0 in E1. rewrite T0 in T1.
  destruct (call outer a k (snd (_enter self w))) as [r w1] eqn:B.
  assert (B' : call (time_track other function) a' k' (snd (_enter self w))
               = (r, w1)) by exact B.
  rewrite B' in E1, T1. cbn [snd] in E1, T1 |- *.
  destruct (wrapped_call_run self outer a k w ts p r w1 zero Fl D T B E1 T1)
    as (_ & E' & T' & L' & _).
  split; [exact L'|]. split; [exact T'|exact E'].
Qed.

Lemma other_tracker_calls_are_not_subtracted_witness :
  let outer := {| __name__ := "outer";
                  call := fun _ _ => call (time_track tracker_shared plain_dodo)
                                          [5%Z; 3%Z] [] |} in
  map (fun m => (function_name m, total_time m, partial_time m))
      (logged (snd (call (time_track tracker0 outer) [] [] world0)))
  = [("dodo", 10%Z, 10%Z); ("outer", 30%Z, 30%Z)].
Proof.
  cbv zeta.
  destruct (@other_tracker_calls_are_not_subtracted ten_ticks tracker0
              tracker_shared plain_dodo "outer" [] [] [5%Z; 3%Z] [] world0 [] 0%Z
              eq_refl ltac:(vm_compute; discriminate)
              ltac:(vm_compute; discriminate) ltac:(vm_compute; discriminate)
              ltac:(vm_compute; discriminate) ltac:(vm_compute; discriminate)
              (fun _ => eq_refl) (fun _ => eq_refl) eq_refl) as (L & _).
  rewrite L. reflexivity.
Defined.

(** X11.  Trackers on the same two lists, as shared trackers are, measure
    one call chain.  When a function instrumented by [self] does nothing but
    call a function instrumented by [other], a tracker that is switched on,
    references the two lists of [self] and has a logger that does not raise,
    and that function leaves the world alone, the record that [self] logs
    has its [partial_time] reduced by the total time that [other] measured
    for the inner call. *)
Theorem same_lists_tracker_calls_are_subtracted `{Host}
    (self other : TimeTracker) (function : callable) (name : string)
    a k a' k' (out : result value) (w : world) ts p :
  _do_time_tracking self = true -> distinct_stacks self ->
  _do_time_tracking other = true -> quiet (_logger other) ->
  _entering_times other = _entering_times self ->
  _total_times other = _total_times self ->
  (forall w', call function a' k' w' = (out, w')) ->
  heap w (_total_times self) = ts ++ [p] ->
  let outer := {| __name__ := name;
                  call := fun _ _ => call (time_track other function) a' k' |} in
  let r := clock_reads w in
  let t1 := sub (clock (2 + r)) (clock (1 + r)) in
  let t := sub (clock (3 + r)) (clock r) in
  let res := call (time_track self outer) a k w in
  logged (snd res)
  = logged w
    ++ [{| function_name := __name__ function; args := a'; kwargs := k';
           total_time := t1; partial_time := sub t1 zero |};
        {| function_name := name; args := a; kwargs := k;
           total_time := t; partial_time := sub t (add zero t1) |}]
  /\ heap (snd res) (_total_times self) = ts ++ [add p t]
  /\ heap (snd res) (_entering_times self) = heap w (_entering_times self).
Proof.
  intros Fl D Fo Q Eo To B0 T. cbv zeta.
  set (outer := {| __name__ := name;
                   call := fun _ _ => call (time_track other function) a' k' |}).
  assert (Do : distinct_stacks other).
  { unfold distinct_stacks. now rewrite Eo, To. }
  pose proof (_enter_entering self w D) as E0.
  pose proof (_enter_total self w D) as T0. rewrite T in T0.
  pose proof (_enter_logged self w) as L0.
  pose proof (_enter_clock_reads self w) as C0.
  set (w0 := snd (_enter self w)) in *.
  rewrite <- To in T0.
  destruct (leaf_call_run other Fo Do Q function a' k' out w0 _ _ B0 T0)
    as (_ & E1 & T1 & L1 & C1).
  rewrite Eo in E1. rewrite To in T1.
  destruct (call outer a k w0) as [r1 w1] eqn:B.
  assert (B' : call (time_track other function) a' k' w0 = (r1, w1)) by exact B.
  rewrite B' in E1, T1, L1, C1. cbn [snd] in E1, T1, L1, C1.
  rewrite E0 in E1. rewrite <- app_assoc in T1. cbn [app] in T1.
  destruct (wrapped_call_run self outer a k w ts p r1 w1 _ Fl D T B E1 T1)
    as (_ & E' & T' & L' & _).
  rewrite C1, C0 in T', L'. rewrite L1, L0, C0 in L'.
  rewrite <- !app_assoc in L'.
  split; [exact L'|]. split; [exact T'|exact E'].
Qed.

Lemma same_lists_tracker_calls_are_subtracted_witness :
  let outer := {| __name__ := "outer";
                  call := fun _ _ =>
                    call (time_track tracker_failing_logger plain_error_fun) [] [] |} in
  map (fun m => (function_name m, total_time m, partial_time m))
      (logged (snd (call (time_track tracker_failing_logger outer) [] [] world0)))
  = [("error_fun", 10%Z, 10%Z); ("outer", 30%Z, 20%Z)].
Proof.
  cbv zeta.
  destruct (@same_lists_tracker_calls_are_subtracted ten_ticks
              tracker_failing_logger tracker0 plain_error_fun "outer"
              [] [] [] [] (Raise (Exception "Booo")) world0 [] 0%Z
              eq_refl ltac:(vm_compute; discriminate) eq_refl
              (fun _ _ => eq_refl) eq_refl eq_refl (fun _ => eq_refl) eq_refl)
    as (L & _).
  reflexivity.
Defined.

(** X12.  What [__str__] shows between top-level calls.  On a tracker with
    no open call and the root accumulator [root], after any properly nested
    sequence of calls, [__str__] returns the text
    [entering_times: [], total_times: [x]] where [x] is the [repr] of [root]
    plus the total times of the top-level calls completed meanwhile; it
    never raises and leaves the world as it is. *)
Theorem str_between_top_level_calls `{Host}
    (repr : num -> string) (self : TimeTracker) (ops : list op) (w : world) root :
  distinct_stacks self -> nested ops ->
  heap w (_entering_times self) = [] ->
  heap w (_total_times self) = [root] ->
  __str__ repr self (run self ops w)
  = (Return ("entering_times: [], total_times: ["
             ++ repr (accumulate root
                        (map total_time (top_level_records self ops w)))
             ++ "]")%string,
     run self ops w).
Proof.
  intros D N E T.
  destruct (nested_spec self ops D N w [] root T) as [E' T'].
  rewrite E in E', T'. cbn [length app] in T'.
  unfold __str__, list_str, top_level_records. rewrite E', T'. reflexivity.
Qed.

Lemma str_between_top_level_calls_witness :
  fst (__str__ (repr_int (fun n => (10 * Z.of_nat n)%Z)) tracker0
         (run tracker0 calls_f_g_h world0))
  = Return "entering_times: [], total_times: [50]".
Proof.
  assert (D : distinct_stacks tracker0) by (vm_compute; discriminate).
  assert (N : nested calls_f_g_h).
  { apply (nested_call "f" [] [] [Enter; Exit "g" [] []; Enter; Exit "h" [] []] []);
      [|constructor].
    apply (nested_call "g" [] [] [] [Enter; Exit "h" [] []]); [constructor|].
    apply (nested_call "h" [] [] [] []); constructor. }
  exact (f_equal fst
           (@str_between_top_level_calls ten_ticks
              (repr_int (fun n => (10 * Z.of_nat n)%Z)) tracker0
              calls_f_g_h world0 0%Z D N eq_refl eq_refl)).
Defined.

(** ** The mutual recursion of [f] and [g] *)

Section MutualRecursion.
Context `{Host}.
Variable tracker : TimeTracker.
Hypothesis tracking : _do_time_tracking tracker = true.
Hypothesis distinct : distinct_stacks tracker.
Hypothesis quiet_logger : quiet (_logger tracker).
Variable default : value.
Variable is_zero : value -> bool.
Variables dec affine halve : value -> value.

(** An instrumented call whose body returns [v] after logging [ms] and
    hands the stacks back. *)
Lemma returning_call_run (function : callable) a k (w : world) ts p v w1 c' ms :
  heap w (_total_times tracker) = ts ++ [p] ->
  call function a k (snd (_enter tracker w)) = (Return v, w1) ->
  heap w1 (_entering_times tracker)
  = heap (snd (_enter tracker w)) (_entering_times tracker) ->
  heap w1 (_total_times tracker) = (ts ++ [p]) ++ [c'] ->
  logged w1 = logged (snd (_enter tracker w)) ++ ms ->
  let res := call (time_track tracker function) a k w in
  fst res = Return v
  /\ heap (snd res) (_entering_times tracker) = heap w (_entering_times tracker)
  /\ (exists p', heap (snd res) (_total_times tracker) = ts ++ [p'])
  /\ exists m, logged (snd res) = logged w ++ ms ++ [m]
               /\ function_name m = __name__ function.
Proof.
  intros T B E1 T1 L1. cbv zeta.
  rewrite (_enter_entering tracker w distinct) in E1.
  rewrite <- app_assoc in T1. cbn [app] in T1.
  rewrite _enter_logged in L1.
  destruct (wrapped_call_run tracker function a k w ts p _ w1 c'
              tracking distinct T B E1 T1) as (F & E' & T' & L' & _).
  rewrite quiet_logger in F.
  split; [exact F|]. split; [exact E'|]. split; [eexists; exact T'|].
  eexists. split; [rewrite L', L1, <- app_assoc; reflexivity|reflexivity].
Qed.

Lemma f_run (j : nat) :
  forall (depth : nat) (x i : value) (w : world) ts p,
    j <= depth ->
    (forall m, m < j -> is_zero (Nat.iter m dec i) = false) ->
    is_zero (Nat.iter j dec i) = true ->
    heap w (_total_times tracker) = ts ++ [p] ->
    let res := call (f default is_zero dec affine halve tracker depth) [x; i] [] w in
    fst res = Return (f_value dec affine halve j x)
    /\ heap (snd res) (_entering_times tracker) = heap w (_entering_times tracker)
    /\ (exists p', heap (snd res) (_total_times tracker) = ts ++ [p'])
    /\ exists ms, logged (snd res) = logged w ++ ms
                  /\ map function_name ms = f_names j.
Proof.
  induction j as [|j IH]; intros depth x i w ts p Lj NZ Z T; cbv zeta.
  - (* [i == 0]: no recursive call *)
    pose proof (_enter_total tracker w distinct) as T0. rewrite T in T0.
    destruct depth as [|d]; cbn [f].
    all: match goal with
         | |- context [time_track tracker ?b] => set (body := b)
         end.
    all: destruct (returning_call_run body [x; i] [] w ts p x
                     (snd (_enter tracker w)) zero [] T) as (F1 & E1 & T1 & m & L1 & N1);
      [subst body; rewrite call_py_def_positional by reflexivity;
       cbn [nth]; simpl in Z; now rewrite Z
      |reflexivity|exact T0|now rewrite app_nil_r|].
    all: split; [exact F1|]; split; [exact E1|]; split; [exact T1|].
    all: exists [m]; split; [exact L1|]; cbn [map f_names]; now rewrite N1.
  - destruct depth as [|d]; [lia|]. cbn [f].
    match goal with
    | |- context [time_track tracker ?b] => set (body := b)
    end.
    pose proof (_enter_total tracker w distinct) as T0. rewrite T in T0.
    set (w0 := snd (_enter tracker w)) in *.
    (* the call of [g] made by the body of [f] *)
    pose proof (_enter_total tracker w0 distinct) as T0'. rewrite T0 in T0'.
    set (w0' := snd (_enter tracker w0)) in *.
    assert (NZ' : forall m, m < j -> is_zero (Nat.iter m dec (dec i)) = false).
    { intros m Lm. rewrite <- Nat.iter_succ_r. apply NZ. lia. }
    assert (Z' : is_zero (Nat.iter j dec (dec i)) = true).
    { now rewrite <- Nat.iter_succ_r. }
    destruct (IH d (dec x) (dec i) w0' _ _ ltac:(lia) NZ' Z' T0')
      as (Ff & Ef & (pf & Tf) & msf & Lf & Nf).
    set (inner := f default is_zero dec affine halve tracker d) in *.
    destruct (call inner [dec x; dec i] [] w0') as [rf wf] eqn:Bf.
    cbn [fst snd] in Ff, Ef, Tf, Lf. subst rf.
    set (gbody := py_def "g" ["x"; "i"]
                    (fun vs =>
                       res <- call inner [dec (nth 0 vs default);
                                          dec (nth 1 vs default)] [] ;;
                       ret (halve res))).
    destruct (returning_call_run gbody [x; i] [] w0 (ts ++ [p]) zero
                (halve (f_value dec affine halve j (dec x))) wf pf msf T0)
      as (Fg & Eg & (pg & Tg) & mg & Lg & Ng);
      [subst gbody; rewrite call_py_def_positional by reflexivity;
       cbn [nth]; unfold bind; fold w0'; now rewrite Bf
      |exact Ef|exact Tf|exact Lf|].
    change (time_track tracker gbody)
      with (g_around default dec halve tracker inner) in Fg, Eg, Tg, Lg.
    destruct (call (g_around default dec halve tracker inner) [x; i] [] w0)
      as [rg wg] eqn:Bg.
    cbn [fst snd] in Fg, Eg, Tg, Lg. subst rg.
    destruct (returning_call_run body [x; i] [] w ts p
                (affine (halve (f_value dec affine halve j (dec x)))) wg pg
                (msf ++ [mg]) T)
      as (F1 & E1 & T1 & m & L1 & N1);
      [subst body; rewrite call_py_def_positional by reflexivity; cbn [nth];
       pose proof (NZ 0 ltac:(lia)) as NZ0; simpl in NZ0; rewrite NZ0;
       unfold bind; fold w0; now rewrite Bg
      |exact Eg|exact Tg|exact Lg|].
    split; [exact F1|]. split; [exact E1|]. split; [exact T1|].
    exists ((msf ++ [mg]) ++ [m]). split; [exact L1|].
    rewrite !map_app. cbn [map f_names]. rewrite Nf, Ng, N1.
    now rewrite <- app_assoc.
Qed.

End MutualRecursion.

(** X13.  [f] and [g] of [examples.py], on a tracker that is switched on
    with a logger that does not raise.  When [i] is [j] decrements away from
    [0] and the recursion depth allows [j] nested calls of [f], [f(x, i)]
    returns the value that the recursion computes and logs [2 * j + 1]
    records, innermost call first: [f], then [g] and [f] alternately, the
    outermost [f] last; the stacks come back as deep as they were. *)
Theorem f_and_g_log_innermost_first `{Host}
    (tracker : TimeTracker) (default : value) (is_zero : value -> bool)
    (dec affine halve : value -> value) (j depth : nat) (x i : value) (w : world) :
  _do_time_tracking tracker = true ->
  distinct_stacks tracker ->
  quiet (_logger tracker) ->
  j <= depth ->
  (forall m, m < j -> is_zero (Nat.iter m dec i) = false) ->
  is_zero (Nat.iter j dec i) = true ->
  heap w (_total_times tracker) <> [] ->
  let res := call (f default is_zero dec affine halve tracker depth) [x; i] [] w in
  fst res = Return (f_value dec affine halve j x)
  /\ logged (snd res) = logged w ++ emitted w (snd res)
  /\ map function_name (emitted w (snd res)) = f_names j
  /\ length (f_names j) = 2 * j + 1
  /\ heap (snd res) (_entering_times tracker) = heap w (_entering_times tracker)
  /\ length (heap (snd res) (_total_times tracker))
     = length (heap w (_total_times tracker)).
Proof.
  intros Fl D Q Lj NZ Z Nt. cbv zeta.
  destruct (nonempty_snoc _ Nt) as (ts & p & T).
  destruct (f_run tracker Fl D Q default is_zero dec affine halve j depth x i
              w ts p Lj NZ Z T) as (F & E & (p' & T') & ms & L & N).
  rewrite (emitted_snoc _ _ _ L).
  split; [exact F|]. split; [exact L|]. split; [exact N|]. split.
  - clear. induction j as [|j IH]; [reflexivity|].
    cbn [f_names]. rewrite length_app, IH. cbn [length]. lia.
  - split; [exact E|]. now rewrite T', T, !length_snoc.
Qed.

Lemma f_and_g_log_innermost_first_witness :
  map function_name
    (emitted world0
       (snd (call (@f ten_ticks 0%Z int_is_zero int_dec int_affine int_halve
                     tracker0 2) [1%Z; 2%Z] [] world0)))
  = ["f"; "g"; "f"; "g"; "f"].
Proof.
  destruct (@f_and_g_log_innermost_first ten_ticks tracker0 0%Z
              int_is_zero int_dec int_affine int_halve 2 2 1%Z 2%Z world0
              eq_refl ltac:(vm_compute; discriminate) (fun _ _ => eq_refl)
              ltac:(lia)) as (_ & _ & N & _).
  - intros [|[|m]] Lm; [reflexivity|reflexivity|lia].
  - reflexivity.
  - vm_compute. discriminate.
  - exact N.
Defined.
